(** * Tri-state truth propagation over the indicator graph

    A shallow embedding of [indicators.go]: the node graph is a heap of
    [IndicatorNode] records addressed by natural numbers (a Go
    [*IndicatorNode] is an address), indicator payloads live in a second heap
    (a Go [*dt.Indicator] is an address into it), and [setTruth] is the
    recursive method of the source, written with explicit heap passing. *)

From stdpp Require Import gmap strings list fin_maps.
From Stdlib Require Import ZArith Ascii.

Local Open Scope Z_scope.
Local Open Scope string_scope.
Local Open Scope list_scope.

(** ** Data model *)

(** [type truth int] with its three constants. *)
Inductive truth := truthUnknown | truthTrue | truthFalse.

#[global] Instance truth_eq_dec : EqDecision truth.
Proof. solve_decision. Defined.

(** [type Pattern struct].  A [*Pattern] is only ever tested against nil and
    copied, never written through, so a pointer to a pattern is modelled by
    [option Pattern]. *)
Record Pattern := mkPattern {
  pat_Type : string;
  pat_Value : string;
  pat_Value2 : string;
  pat_Match : string
}.

#[global] Instance Pattern_eq_dec : EqDecision Pattern.
Proof. solve_decision. Defined.

(** Modelled from the spec: the struct [dt.Indicator] is declared in the
    imported package [analytics-common/datatypes], which is not part of the
    sources; the fields are the ones the definition format lists for an
    indicator (id, type, value, description, category, author, source).
    [setTruth] reads [Id] and writes [Type] and [Value]. *)
Record Indicator := mkIndicator {
  ind_Id : string;
  ind_Type : string;
  ind_Value : string;
  ind_Description : string;
  ind_Category : string;
  ind_Author : string;
  ind_Source : string
}.

#[global] Instance Indicator_eq_dec : EqDecision Indicator.
Proof. solve_decision. Defined.

(** Addresses of nodes and of indicator payloads. *)
Abbreviation addr := nat (only parsing).
Abbreviation iaddr := nat (only parsing).

(** [type IndicatorNode struct].  Go's [int] is only stored and compared for
    equality here, so [eventID] and the entries of [SiblingNots] are [Z]. *)
Record IndicatorNode := mkNode {
  node_ID : string;
  node_Comment : string;
  node_Ref : string;
  node_Operator : string;
  node_Indicator : option iaddr;
  node_Parents : list addr;
  node_Children : list addr;
  node_SiblingNots : list Z;
  node_Pattern : option Pattern;
  node_truth : truth;
  node_eventID : Z;
  node_UseOriginalIndicatorValue : bool
}.

Definition set_truth (t : truth) (n : IndicatorNode) : IndicatorNode :=
  mkNode (node_ID n) (node_Comment n) (node_Ref n) (node_Operator n)
         (node_Indicator n) (node_Parents n) (node_Children n)
         (node_SiblingNots n) (node_Pattern n) t (node_eventID n)
         (node_UseOriginalIndicatorValue n).

Definition set_eventID (e : Z) (n : IndicatorNode) : IndicatorNode :=
  mkNode (node_ID n) (node_Comment n) (node_Ref n) (node_Operator n)
         (node_Indicator n) (node_Parents n) (node_Children n)
         (node_SiblingNots n) (node_Pattern n) (node_truth n) e
         (node_UseOriginalIndicatorValue n).

Definition set_Pattern (p : option Pattern) (n : IndicatorNode) : IndicatorNode :=
  mkNode (node_ID n) (node_Comment n) (node_Ref n) (node_Operator n)
         (node_Indicator n) (node_Parents n) (node_Children n)
         (node_SiblingNots n) p (node_truth n) (node_eventID n)
         (node_UseOriginalIndicatorValue n).

Definition set_ind_Type (t : string) (i : Indicator) : Indicator :=
  mkIndicator (ind_Id i) t (ind_Value i) (ind_Description i)
              (ind_Category i) (ind_Author i) (ind_Source i).

Definition set_ind_Value (v : string) (i : Indicator) : Indicator :=
  mkIndicator (ind_Id i) (ind_Type i) v (ind_Description i)
              (ind_Category i) (ind_Author i) (ind_Source i).

(** The Go zero value of a node, and the two package-level sentinels
    [var trueNode = IndicatorNode{truth: truthTrue}] and
    [var falseNode = IndicatorNode{truth: truthFalse}]. *)
Definition zeroNode : IndicatorNode :=
  mkNode "" "" "" "" None [] [] [] None truthUnknown 0 false.

Definition trueNode : IndicatorNode := set_truth truthTrue zeroNode.
Definition falseNode : IndicatorNode := set_truth truthFalse zeroNode.

(** The memory the engine works on.  An address outside the domain of a heap
    plays the role of a nil pointer: dereferencing it panics. *)
Record Heap := mkHeap {
  nodes : gmap nat IndicatorNode;
  indicators : gmap nat Indicator
}.

Definition storeNode (a : addr) (n : IndicatorNode) (h : Heap) : Heap :=
  mkHeap (<[a := n]> (nodes h)) (indicators h).

Definition storeIndicator (p : iaddr) (i : Indicator) (h : Heap) : Heap :=
  mkHeap (nodes h) (<[p := i]> (indicators h)).

(** The [childNode] argument of [setTruth]: the address of one of the two
    sentinels, or of a node of the graph. *)
Inductive nodeRef :=
  | ref_trueNode
  | ref_falseNode
  | ref_node (a : addr).

#[global] Instance nodeRef_eq_dec : EqDecision nodeRef.
Proof. solve_decision. Defined.

Definition deref (h : Heap) (r : nodeRef) : option IndicatorNode :=
  match r with
  | ref_trueNode => Some trueNode
  | ref_falseNode => Some falseNode
  | ref_node a => nodes h !! a
  end.

(** ** Outcomes

    A call either returns, panics (nil dereference, index out of range), or
    the model runs out of recursion fuel. *)
Inductive outcome (A : Type) :=
  | Ok (a : A)
  | Panic
  | OutOfFuel.
Arguments Ok {A} a.
Arguments Panic {A}.
Arguments OutOfFuel {A}.

#[global] Instance outcome_ret : MRet outcome := fun _ a => Ok a.
#[global] Instance outcome_bind : MBind outcome := fun _ _ f m =>
  match m with
  | Ok a => f a
  | Panic => Panic
  | OutOfFuel => OutOfFuel
  end.

Definition orPanic {A} (o : option A) : outcome A :=
  match o with
  | Some a => Ok a
  | None => Panic
  end.

(** ** [strings.Split] with a one-byte separator

    The source only calls [strings.Split(s, ".")].  The result is never
    empty: a string without the separator yields the one-element slice
    holding the string itself. *)
Fixpoint Split (s : string) (sep : Ascii.ascii) : list string :=
  match s with
  | EmptyString => [EmptyString]
  | String c s' =>
      if Ascii.eqb c sep then EmptyString :: Split s' sep
      else match Split s' sep with
           | [] => [String c EmptyString]
           | part :: parts => String c part :: parts
           end
  end.

(** ** [setTruth], phase by phase *)

(** Lines 123-129: the lazy per-event reset of the receiver. *)
Definition resetNode (evID : Z) (n : IndicatorNode) : IndicatorNode :=
  if decide (node_eventID n ≠ evID) then
    let n1 := set_eventID evID (set_truth truthUnknown n) in
    if decide (node_Operator n1 ≠ "") then set_Pattern None n1 else n1
  else n.

(** Lines 152-158: the loop over [node.Children] of the AND case, leaving at
    the first child that is not true for the node's event. *)
Fixpoint childrenTrue (h : Heap) (eventID : Z) (children : list addr)
  : outcome truth :=
  match children with
  | [] => Ok truthTrue
  | c :: rest =>
      child ← orPanic (nodes h !! c);
      if decide (node_eventID child ≠ eventID ∨ node_truth child ≠ truthTrue)
      then Ok truthUnknown
      else childrenTrue h eventID rest
  end.

(** Lines 136-177: the operator switch.  Returns [setNodeTo] and the heap,
    in which the receiver may have adopted a pattern. *)
Definition evalOperator (h : Heap) (node : addr) (childNode : nodeRef)
  : outcome (truth * Heap) :=
  n ← orPanic (nodes h !! node);
  child ← orPanic (deref h childNode);
  if decide (node_Operator n ≠ "") then
    if decide (node_Operator n = "OR") then
      if decide (node_truth child = truthTrue) then
        if decide (node_Pattern n = None)
        then Ok (truthTrue, storeNode node (set_Pattern (node_Pattern child) n) h)
        else Ok (truthTrue, h)
      else Ok (truthUnknown, h)
    else if decide (node_Operator n = "AND") then
      if decide (node_truth child = truthFalse) then Ok (truthFalse, h)
      else
        setNodeTo ← childrenTrue h (node_eventID n) (node_Children n);
        if decide (setNodeTo = truthTrue ∧ node_Pattern n = None) then
          c0 ← orPanic (head (node_Children n));
          first ← orPanic (nodes h !! c0);
          Ok (setNodeTo, storeNode node (set_Pattern (node_Pattern first) n) h)
        else Ok (setNodeTo, h)
    else if decide (node_Operator n = "NOT") then
      if decide (node_truth child = truthTrue) then Ok (truthFalse, h)
      else Ok (truthTrue, h)
    else Ok (truthUnknown, h)
  else Ok (node_truth child, h).

(** Lines 185-208: emission of the receiver's indicator.  The log calls have
    no effect on the result; the two that read [node.Indicator.Id]
    dereference the indicator. *)
Definition emitIndicator (h : Heap) (node : addr)
  : outcome (Heap * list iaddr) :=
  n ← orPanic (nodes h !! node);
  if decide (node_truth n = truthTrue) then
    match node_Indicator n with
    | None => Ok (h, [])
    | Some p =>
        match node_Pattern n with
        | Some pat =>
            if node_UseOriginalIndicatorValue n then Ok (h, [p])
            else
              let parts := Split (pat_Type pat) "."%char in
              i ← orPanic (indicators h !! p);
              let type :=
                if decide (1 < List.length parts)%nat
                then nth 1 parts "" else nth 0 parts "" in
              Ok (storeIndicator p
                    (set_ind_Value (pat_Value pat) (set_ind_Type type i)) h,
                  [p])
        | None =>
            _ ← orPanic (indicators h !! p);
            Ok (h, [p])
        end
    end
  else Ok (h, []).

(** Lines 211-220: the loop over [node.Parents]; [call] is the recursive
    invocation [parent.setTruth(node, evID)]. *)
Fixpoint parentsLoop
    (call : addr → Heap → outcome (Heap * list iaddr * list Z))
    (parents : list addr) (h : Heap)
    (indicators : list iaddr) (discoveredNots : list Z)
  : outcome (Heap * list iaddr * list Z) :=
  match parents with
  | [] => Ok (h, indicators, discoveredNots)
  | parent :: rest =>
      '(h', inds, discNots) ← call parent h;
      parentsLoop call rest h' (indicators ++ inds) (discoveredNots ++ discNots)
  end.

(** [func (node *IndicatorNode) setTruth(childNode, evID)].  Slices are
    lists, so a nil slice and an empty one coincide. *)
Fixpoint setTruth (fuel : nat) (node : addr) (childNode : nodeRef) (evID : Z)
    (h : Heap) : outcome (Heap * list iaddr * list Z) :=
  match fuel with
  | O => OutOfFuel
  | S fuel' =>
      n0 ← orPanic (nodes h !! node);
      let discoveredNots := node_SiblingNots n0 in
      c0 ← orPanic (deref h childNode);
      if decide (node_truth c0 = truthUnknown) then Ok (h, [], [])
      else
        let h1 := storeNode node (resetNode evID n0) h in
        if decide (node_truth (resetNode evID n0) = truthUnknown) then
          '(setNodeTo, h2) ← evalOperator h1 node childNode;
          if decide (setNodeTo ≠ truthUnknown) then
            n2 ← orPanic (nodes h2 !! node);
            let h3 := storeNode node (set_truth setNodeTo n2) h2 in
            '(h4, indicators) ← emitIndicator h3 node;
            parentsLoop (fun parent => setTruth fuel' parent (ref_node node) evID)
                        (node_Parents n2) h4 indicators discoveredNots
          else Ok (h2, [], discoveredNots)
        else Ok (h1, [], discoveredNots)
  end.

(** Enough fuel for any call on [h]: each nested call is on a node that the
    enclosing calls have not resolved yet. *)
Definition fuelFor (h : Heap) : nat := S (size (nodes h)).

(** [func (node *IndicatorNode) Fire(evID)]. *)
Definition Fire (node : addr) (evID : Z) (h : Heap)
  : outcome (Heap * list iaddr * list Z) :=
  setTruth (fuelFor h) node ref_trueNode evID h.

(** [func (node *IndicatorNode) ResolveNot(evID)]. *)
Definition ResolveNot (node : addr) (evID : Z) (h : Heap)
  : outcome (Heap * list iaddr * list Z) :=
  setTruth (fuelFor h) node ref_falseNode evID h.

(** ** The graph of the bundled visualisation

    The tree drawn by the repository's HTML page: an AND at the root carrying
    the "TOR exit node" indicator, over an OR of two ANDs and a NOT.  The
    three [ref] leaves are given a pattern each so that they can be fired. *)
Module Graphs.

Definition leaf (type value : string) (parents : list addr) : IndicatorNode :=
  mkNode "" "" "" "" None parents [] []
         (Some (mkPattern type value "" "")) truthUnknown 0 false.

Definition operator (op : string) (ind : option iaddr)
    (parents children : list addr) (nots : list Z) : IndicatorNode :=
  mkNode "" "" "" op ind parents children nots None truthUnknown 0 false.

Definition torIndicator : Indicator :=
  mkIndicator "1ac05c71-bc06-4721-ade7-7b36ebb3740e" "ipv4" "103.199.16.66"
              "TOR exit node" "tor.exit" "me@dan.me.uk"
              "https://www.dan.me.uk/tornodes".

Definition tor : Heap :=
  mkHeap
    (list_to_map
       [ (0%nat, operator "AND" (Some 0%nat) [] [1; 6]%nat []);
         (1%nat, operator "OR" None [0]%nat [2; 3]%nat [6]);
         (2%nat, operator "AND" None [1]%nat [4; 7]%nat []);
         (3%nat, operator "AND" None [1]%nat [5; 8]%nat []);
         (4%nat, leaf "src.ipv4" "103.199.16.66" [2]%nat);
         (5%nat, leaf "dest.ipv4" "103.199.16.66" [3]%nat);
         (6%nat, operator "NOT" None [0]%nat [9]%nat []);
         (7%nat, leaf "port" "443" [2]%nat);
         (8%nat, leaf "port" "9001" [3]%nat);
         (9%nat, leaf "country" "GB" [6]%nat) ])
    (list_to_map [ (0%nat, torIndicator) ]).

(** A two-node graph whose root has an operator the engine does not know. *)
Definition xor : Heap :=
  mkHeap
    (list_to_map
       [ (0%nat, operator "XOR" (Some 0%nat) [] [1]%nat [7]);
         (1%nat, leaf "country" "GB" [0]%nat) ])
    (list_to_map [ (0%nat, torIndicator) ]).


(** An OR with an indicator over two leaves and a NOT. *)
Definition watch : Heap :=
  mkHeap
    (list_to_map
       [ (0%nat, operator "OR" (Some 0%nat) [] [1; 2; 3]%nat []);
         (1%nat, leaf "src.ipv4" "10.0.0.1" [0]%nat);
         (2%nat, leaf "dest.port" "8443" [0]%nat);
         (3%nat, operator "NOT" None [0]%nat [4]%nat []);
         (4%nat, leaf "country" "GB" [3]%nat) ])
    (list_to_map [ (0%nat, torIndicator) ]).

(** A single leaf that carries an indicator of its own. *)
Definition beacon : Heap :=
  mkHeap
    (list_to_map
       [ (0%nat,
          mkNode "" "" "" "" (Some 0%nat) [] [] []
                 (Some (mkPattern "dest.ipv4" "10.9.8.7" "" ""))
                 truthUnknown 0 false) ])
    (list_to_map [ (0%nat, torIndicator) ]).

End Graphs.

(** ** Predicates used by the statements *)

(** A node is resolved for event [evID] when its state belongs to that event
    and its truth is known. *)
Definition resolved (evID : Z) (n : IndicatorNode) : Prop :=
  node_eventID n = evID ∧ node_truth n ≠ truthUnknown.

#[global] Instance resolved_dec evID n : Decision (resolved evID n).
Proof. unfold resolved. apply _. Defined.

(** The truth of a node as observed for event [evID]: a state left over from
    another event counts as unknown. *)
Definition truthFor (evID : Z) (n : IndicatorNode) : truth :=
  if decide (node_eventID n = evID) then node_truth n else truthUnknown.

(** Child [c] is resolved true for event [evID] in heap [h]. *)
Definition childTrue (h : Heap) (evID : Z) (c : addr) : Prop :=
  ∃ child, nodes h !! c = Some child
           ∧ node_eventID child = evID ∧ node_truth child = truthTrue.

(** The fields of a node that [setTruth] never assigns. *)
Definition sameStructure (n n' : IndicatorNode) : Prop :=
  node_ID n' = node_ID n ∧ node_Comment n' = node_Comment n
  ∧ node_Ref n' = node_Ref n ∧ node_Operator n' = node_Operator n
  ∧ node_Indicator n' = node_Indicator n ∧ node_Parents n' = node_Parents n
  ∧ node_Children n' = node_Children n
  ∧ node_SiblingNots n' = node_SiblingNots n
  ∧ node_UseOriginalIndicatorValue n' = node_UseOriginalIndicatorValue n.

(** The truths that the operator switch can assign to a node with operator
    [op]: anything known for a leaf, true only for OR, nothing for an
    operator it does not recognise. *)
Definition settable (op : string) (t : truth) : Prop :=
  match t with
  | truthUnknown => False
  | truthTrue => op = "" ∨ op = "OR" ∨ op = "AND" ∨ op = "NOT"
  | truthFalse => op = "" ∨ op = "AND" ∨ op = "NOT"
  end.

(** How one node may differ after a call for event [evID]: the structure is
    kept, a leaf keeps its pattern, a node already resolved for the event is
    not modified at all, and a new truth is unknown (reset) or one that the
    node's operator can produce. *)
Definition nodeStep (evID : Z) (n n' : IndicatorNode) : Prop :=
  sameStructure n n'
  ∧ (node_Operator n = "" → node_Pattern n' = node_Pattern n)
  ∧ (resolved evID n → n' = n)
  ∧ (node_truth n' = node_truth n ∨ node_truth n' = truthUnknown
     ∨ settable (node_Operator n) (node_truth n')).

(** How one indicator payload may differ: only in [Type] and [Value]. *)
Definition indicatorStep (i i' : Indicator) : Prop :=
  ind_Id i' = ind_Id i ∧ ind_Description i' = ind_Description i
  ∧ ind_Category i' = ind_Category i ∧ ind_Author i' = ind_Author i
  ∧ ind_Source i' = ind_Source i.

Definition heapStep (evID : Z) (h h' : Heap) : Prop :=
  (∀ a, option_Forall2 (nodeStep evID) (nodes h !! a) (nodes h' !! a))
  ∧ (∀ p, option_Forall2 indicatorStep (indicators h !! p) (indicators h' !! p)).

(** Well-formed graphs: every parent and child link and every indicator
    pointer is a valid address, and an AND node has a child. *)
Definition wfNode (h : Heap) (n : IndicatorNode) : Prop :=
  Forall (λ p, is_Some (nodes h !! p)) (node_Parents n)
  ∧ Forall (λ c, is_Some (nodes h !! c)) (node_Children n)
  ∧ from_option (λ p, is_Some (indicators h !! p)) True (node_Indicator n)
  ∧ (node_Operator n = "AND" → node_Children n ≠ []).

Definition wf (h : Heap) : Prop :=
  map_Forall (λ _ n, wfNode h n) (nodes h).

(** The addresses whose node is not resolved for [evID]. *)
Definition unresolvedSet (evID : Z) (h : Heap) : gset nat :=
  dom (filter (λ kv, ¬ resolved evID kv.2) (nodes h)).

(** Node [a] emitted the indicator at [p] between [h] and [h']: it was not
    resolved for the event in [h], and in [h'] it is resolved true and
    carries [p]. *)
Definition emits (evID : Z) (h h' : Heap) (a : addr) (p : iaddr) : Prop :=
  a ∈ unresolvedSet evID h
  ∧ ∃ n', nodes h' !! a = Some n' ∧ resolved evID n'
          ∧ node_truth n' = truthTrue ∧ node_Indicator n' = Some p.

(** The returned indicators come, in order, from pairwise distinct nodes. *)
Definition emission (evID : Z) (h h' : Heap) (inds : list iaddr) : Prop :=
  ∃ emitters : list addr,
    NoDup emitters ∧ Forall2 (emits evID h h') emitters inds.

(** What a returning call with a known child truth did, read off the body
    of [setTruth]. *)
Definition touchCases (evID : Z) (fuel : nat) (a : addr) (child : nodeRef)
    (h : Heap) (n0 : IndicatorNode) (r : Heap * list iaddr * list Z) : Prop :=
  let h1 := storeNode a (resetNode evID n0) h in
  (node_truth (resetNode evID n0) ≠ truthUnknown
   ∧ r = (h1, [], node_SiblingNots n0))
  ∨ (node_truth (resetNode evID n0) = truthUnknown
     ∧ ∃ t h2, evalOperator h1 a child = Ok (t, h2)
         ∧ ((t = truthUnknown ∧ r = (h2, [], node_SiblingNots n0))
            ∨ (t ≠ truthUnknown
               ∧ ∃ n2 h4 i0, nodes h2 !! a = Some n2
                   ∧ emitIndicator (storeNode a (set_truth t n2) h2) a
                     = Ok (h4, i0)
                   ∧ parentsLoop
                       (λ parent, setTruth fuel parent (ref_node a) evID)
                       (node_Parents n2) h4 i0 (node_SiblingNots n0)
                     = Ok r))).

(** The payload at [p] can only be rewritten by a node that carries it and
    is resolved during the call. *)
Definition indicatorFrame (evID : Z) (h h' : Heap) : Prop :=
  ∀ p, (∀ b n, nodes h !! b = Some n → node_Indicator n = Some p →
               resolved evID n) →
       indicators h' !! p = indicators h !! p.

(** The calls a driver makes on the engine, and a run of several of them for
    one event with their outputs concatenated. *)
Inductive apiCall :=
  | callFire (node : addr)
  | callResolveNot (node : addr).

Definition runCall (evID : Z) (c : apiCall) (h : Heap)
  : outcome (Heap * list iaddr * list Z) :=
  match c with
  | callFire node => Fire node evID h
  | callResolveNot node => ResolveNot node evID h
  end.

Definition callNode (c : apiCall) : addr :=
  match c with
  | callFire node => node
  | callResolveNot node => node
  end.

Fixpoint runCalls (evID : Z) (calls : list apiCall) (h : Heap)
  : outcome (Heap * list iaddr * list Z) :=
  match calls with
  | [] => Ok (h, [], [])
  | c :: rest =>
      '(h1, inds1, nots1) ← runCall evID c h;
      '(h2, inds2, nots2) ← runCalls evID rest h1;
      Ok (h2, inds1 ++ inds2, nots1 ++ nots2)
  end.


(** A call for event [evID] leaves a node as it was or leaves it in the
    generation of that event. *)
Definition generationStep (evID : Z) (h h' : Heap) : Prop :=
  ∀ b n, nodes h !! b = Some n →
         ∃ n', nodes h' !! b = Some n' ∧ (n' = n ∨ node_eventID n' = evID).

(** Every AND node that is true for the event has all its children true for
    the event. *)
Definition andSound (evID : Z) (h : Heap) : Prop :=
  ∀ b n, nodes h !! b = Some n → node_Operator n = "AND" →
         node_eventID n = evID → node_truth n = truthTrue →
         Forall (childTrue h evID) (node_Children n).

(** Each reported negation is configured on a node that is in the
    generation of the event. *)
Definition notsFrom (evID : Z) (h : Heap) (nots : list Z) : Prop :=
  Forall (λ z, ∃ b n, nodes h !! b = Some n ∧ node_eventID n = evID
                      ∧ z ∈ node_SiblingNots n) nots.

(** Two states of a node that a touch for event [evID] cannot tell apart:
    the lazy reset for the event maps them to the same node.  Two states
    that belong to the event are related only when they are equal; a state
    left by another event is related to every state that differs from it in
    the truth, the stamp and, on a node with an operator, the pattern. *)
Definition staleEquiv (evID : Z) (n m : IndicatorNode) : Prop :=
  resetNode evID n = resetNode evID m.

(** Two graphs whose nodes are pairwise in that relation and whose
    indicator templates agree except for [Type] and [Value]. *)
Definition heapEquiv (evID : Z) (h g : Heap) : Prop :=
  (∀ b, option_Forall2 (staleEquiv evID) (nodes h !! b) (nodes g !! b))
  ∧ (∀ p, option_Forall2 indicatorStep (indicators h !! p)
            (indicators g !! p)).

(** Of two runs, one from [h] to [h'] and one from [g] to [g']: each
    template ends with the same contents in both, or holds in both what it
    held before the run. *)
Definition templatesAgree (h g h' g' : Heap) : Prop :=
  ∀ p, indicators h' !! p = indicators g' !! p
       ∨ (indicators h' !! p = indicators h !! p
          ∧ indicators g' !! p = indicators g !! p).

(** The truths of a child that decide a parent with operator [op]. *)
Definition decisive (op : string) (t : truth) : Prop :=
  op = "" ∨ op = "NOT" ∨ (op = "AND" ∧ t = truthFalse)
  ∨ (op = "OR" ∧ t = truthTrue).

(** Whether byte [c] occurs in [s]. *)
Fixpoint hasByte (c : Ascii.ascii) (s : string) : bool :=
  match s with
  | EmptyString => false
  | String c' s' => if Ascii.eqb c' c then true else hasByte c s'
  end.

(** Two graphs outside the intended shape: two OR nodes that are each
    other's parent and child, and an AND without children under an OR. *)
Module Shapes.

Definition cyclic : Heap :=
  mkHeap
    (list_to_map
       [ (0%nat, Graphs.operator "OR" None [1]%nat [1]%nat [10]);
         (1%nat, Graphs.operator "OR" None [0]%nat [0]%nat [11]) ])
    ∅.

Definition childless : Heap :=
  mkHeap
    (list_to_map
       [ (0%nat, Graphs.operator "OR" None [] [1]%nat []);
         (1%nat, Graphs.operator "AND" None [0]%nat [] []) ])
    ∅.

End Shapes.

#[global] Instance wfNode_dec h n : Decision (wfNode h n).
Proof. unfold wfNode. destruct (node_Indicator n); simpl; apply _. Defined.

#[global] Instance wf_dec h : Decision (wf h).
Proof. unfold wf. apply _. Defined.

(** ** Auxiliary facts *)

Section Outcome.
Context {A B : Type}.

Lemma bind_Ok (m : outcome A) (f : A → outcome B) (r : B) :
  m ≫= f = Ok r → ∃ a, m = Ok a ∧ f a = Ok r.
Proof. destruct m; simpl; intros H; try discriminate. eauto. Qed.

Lemma orPanic_Ok (o : option A) (a : A) : orPanic o = Ok a → o = Some a.
Proof. destruct o; simpl; congruence. Qed.

Lemma orPanic_Some (o : option A) (a : A) : o = Some a → orPanic o = Ok a.
Proof. intros ->. reflexivity. Qed.
End Outcome.

(** Decompose a hypothesis stating that a sequence of binds returned. *)
Ltac ok_inv H :=
  repeat match type of H with
  | (_ ≫= _) = Ok _ =>
      let a := fresh "a" in
      let E := fresh "E" in
      apply bind_Ok in H; destruct H as (a & E & H);
      try (apply orPanic_Ok in E)
  | (let '(_, _) := ?p in _) = Ok _ => destruct p
  | Ok _ = Ok _ => injection H as H
  | Panic = Ok _ => discriminate H
  | OutOfFuel = Ok _ => discriminate H
  end.

Section SplitFacts.
Variable sep : Ascii.ascii.

Lemma Split_nonempty (s : string) : Split s sep ≠ [].
Proof.
  destruct s as [|c s]; simpl; [discriminate|].
  destruct (Ascii.eqb c sep); [discriminate|].
  destruct (Split s sep); discriminate.
Qed.

Lemma Split_length_pos (s : string) : (1 ≤ List.length (Split s sep))%nat.
Proof.
  pose proof (Split_nonempty s). destruct (Split s sep); simpl; [done|lia].
Qed.

(** A one-part result is the string itself. *)
Lemma Split_single (s : string) :
  List.length (Split s sep) = 1%nat → Split s sep = [s].
Proof.
  induction s as [|c s IH]; simpl; [done|].
  destruct (Ascii.eqb c sep).
  - pose proof (Split_length_pos s). simpl. lia.
  - destruct (Split s sep) as [|part parts] eqn:E.
    + exfalso. by apply (Split_nonempty s).
    + simpl. intros Hl. destruct parts; [|discriminate].
      specialize (IH eq_refl). by injection IH as ->.
Qed.

Lemma Split_head_single (s : string) :
  List.length (Split s sep) = 1%nat → nth 0 (Split s sep) "" = s.
Proof. intros H. by rewrite (Split_single s H). Qed.
End SplitFacts.

Section NodeFacts.
Variable evID : Z.

Lemma sameStructure_refl n : sameStructure n n.
Proof. by repeat split. Qed.

Lemma sameStructure_trans n1 n2 n3 :
  sameStructure n1 n2 → sameStructure n2 n3 → sameStructure n1 n3.
Proof. unfold sameStructure. intuition congruence. Qed.

Lemma nodeStep_refl n : nodeStep evID n n.
Proof. split; [apply sameStructure_refl|]. repeat split; auto. Qed.

Lemma nodeStep_trans n1 n2 n3 :
  nodeStep evID n1 n2 → nodeStep evID n2 n3 → nodeStep evID n1 n3.
Proof.
  intros (S1 & P1 & R1 & T1) (S2 & P2 & R2 & T2). split; [|split; [|split]].
  - by eapply sameStructure_trans.
  - intros Hop. rewrite P2, P1; [done..|].
    destruct S1 as (_ & _ & _ & -> & _). done.
  - intros Hr. pose proof (R1 Hr) as ->. by apply R2.
  - destruct S1 as (_ & _ & _ & Hop & _). rewrite Hop in T2.
    destruct T2 as [->|[?|?]]; auto.
Qed.

Lemma indicatorStep_refl i : indicatorStep i i.
Proof. by repeat split. Qed.

Lemma indicatorStep_trans i1 i2 i3 :
  indicatorStep i1 i2 → indicatorStep i2 i3 → indicatorStep i1 i3.
Proof. unfold indicatorStep. intuition congruence. Qed.

Lemma heapStep_refl h : heapStep evID h h.
Proof.
  split; intros a.
  - destruct (nodes h !! a); constructor. apply nodeStep_refl.
  - destruct (indicators h !! a); constructor. apply indicatorStep_refl.
Qed.

Lemma heapStep_trans h1 h2 h3 :
  heapStep evID h1 h2 → heapStep evID h2 h3 → heapStep evID h1 h3.
Proof.
  intros [N1 I1] [N2 I2]. split; intros a.
  - specialize (N1 a). specialize (N2 a).
    destruct N1; inversion N2; subst; constructor.
    by eapply nodeStep_trans.
  - specialize (I1 a). specialize (I2 a).
    destruct I1; inversion I2; subst; constructor.
    by eapply indicatorStep_trans.
Qed.

(** Lines 123-129 only touch the per-event state, and the pattern of a
    node that has an operator. *)
Lemma resetNode_step n : nodeStep evID n (resetNode evID n).
Proof.
  unfold resetNode. case_decide as He; [|apply nodeStep_refl].
  split; [|split; [|split]].
  - case_decide; by repeat split.
  - intros Hop. case_decide as Ho; [|done]. simpl in Ho. congruence.
  - intros [Hr _]. congruence.
  - right. left. by case_decide.
Qed.

Lemma resetNode_eventID n : node_eventID (resetNode evID n) = evID.
Proof.
  unfold resetNode. case_decide as He.
  - by case_decide.
  - done.
Qed.

Lemma resetNode_resolved n : resolved evID n → resetNode evID n = n.
Proof. intros [He _]. unfold resetNode. by rewrite decide_False by (by intros ?). Qed.

Lemma resetNode_same_event n :
  node_eventID n = evID → resetNode evID n = n.
Proof. intros He. unfold resetNode. by rewrite decide_False by (by intros ?). Qed.

Lemma resetNode_truth n :
  node_truth (resetNode evID n) = truthFor evID n.
Proof.
  unfold resetNode, truthFor. repeat case_decide; simpl; congruence.
Qed.

Lemma resetNode_idem n :
  resetNode evID (resetNode evID n) = resetNode evID n.
Proof. apply resetNode_same_event, resetNode_eventID. Qed.
End NodeFacts.

Section HeapFacts.
Variable evID : Z.

Lemma storeNode_same a n h : nodes h !! a = Some n → storeNode a n h = h.
Proof.
  intros H. destruct h as [ns ix]. unfold storeNode. simpl in *.
  by rewrite insert_id.
Qed.

Lemma storeNode_storeNode a n n' h :
  storeNode a n' (storeNode a n h) = storeNode a n' h.
Proof. unfold storeNode. simpl. by rewrite insert_insert_eq. Qed.

Lemma storeNode_lookup a n h : nodes (storeNode a n h) !! a = Some n.
Proof. apply lookup_insert_eq. Qed.

Lemma storeNode_lookup_ne a b n h :
  a ≠ b → nodes (storeNode a n h) !! b = nodes h !! b.
Proof. intros. by apply lookup_insert_ne. Qed.

Lemma set_Pattern_same n : set_Pattern (node_Pattern n) n = n.
Proof. by destruct n. Qed.

Lemma storeNode_step a n n' h :
  nodes h !! a = Some n → nodeStep evID n n' →
  heapStep evID h (storeNode a n' h).
Proof.
  intros Ha Hs. split; intros b; simpl.
  - destruct (decide (a = b)) as [Heq|Hne]; [subst b|].
    + rewrite lookup_insert_eq, Ha. by constructor.
    + rewrite lookup_insert_ne by done.
      destruct (nodes h !! b); constructor. apply nodeStep_refl.
  - destruct (indicators h !! b); constructor. apply indicatorStep_refl.
Qed.

Lemma storeIndicator_step p i i' h :
  indicators h !! p = Some i → indicatorStep i i' →
  heapStep evID h (storeIndicator p i' h).
Proof.
  intros Hp Hs. split; intros b; simpl.
  - destruct (nodes h !! b); constructor. apply nodeStep_refl.
  - destruct (decide (p = b)) as [Heq|Hne]; [subst b|].
    + rewrite lookup_insert_eq, Hp. by constructor.
    + rewrite lookup_insert_ne by done.
      destruct (indicators h !! b); constructor. apply indicatorStep_refl.
Qed.

Lemma heapStep_lookup h h' a n :
  heapStep evID h h' → nodes h !! a = Some n →
  ∃ n', nodes h' !! a = Some n' ∧ nodeStep evID n n'.
Proof.
  intros [Hn _] Ha. specialize (Hn a). rewrite Ha in Hn.
  inversion Hn; subst. eauto.
Qed.

Lemma heapStep_lookup_inv h h' a n' :
  heapStep evID h h' → nodes h' !! a = Some n' →
  ∃ n, nodes h !! a = Some n ∧ nodeStep evID n n'.
Proof.
  intros [Hn _] Ha. specialize (Hn a). rewrite Ha in Hn.
  inversion Hn; subst. eauto.
Qed.

Lemma heapStep_resolved h h' a n :
  heapStep evID h h' → nodes h !! a = Some n → resolved evID n →
  nodes h' !! a = Some n.
Proof.
  intros Hs Ha Hr. destruct (heapStep_lookup _ _ _ _ Hs Ha) as (n' & Hn' & _ & _ & Heq & _).
  by rewrite Hn', (Heq Hr).
Qed.

Lemma heapStep_is_Some h h' a :
  heapStep evID h h' → is_Some (nodes h !! a) ↔ is_Some (nodes h' !! a).
Proof.
  intros [Hn _]. specialize (Hn a). inversion Hn; split; intros [? ?]; eauto; congruence.
Qed.

Lemma heapStep_indicator_is_Some h h' p :
  heapStep evID h h' →
  is_Some (indicators h !! p) ↔ is_Some (indicators h' !! p).
Proof.
  intros [_ Hi]. specialize (Hi p). inversion Hi; split; intros [? ?]; eauto; congruence.
Qed.

Lemma heapStep_dom h h' : heapStep evID h h' → dom (nodes h') = dom (nodes h).
Proof.
  intros Hs. apply set_eq. intros a. rewrite !elem_of_dom.
  symmetry. by apply heapStep_is_Some.
Qed.

(** Well-formedness only depends on the structure. *)
Lemma heapStep_wf h h' : heapStep evID h h' → wf h → wf h'.
Proof.
  intros Hs Hwf a n' Ha.
  destruct (heapStep_lookup_inv _ _ _ _ Hs Ha) as (n & Hn & Hst & _).
  destruct Hst as (_ & _ & _ & Hop & Hind & Hpar & Hch & _).
  destruct (Hwf a n Hn) as (W1 & W2 & W3 & W4).
  unfold wfNode. rewrite Hop, Hind, Hpar, Hch. repeat split; try done.
  - eapply Forall_impl; [exact W1|]. intros p Hp. simpl in *.
    by apply (proj1 (heapStep_is_Some h h' p Hs)).
  - eapply Forall_impl; [exact W2|]. intros p Hp. simpl in *.
    by apply (proj1 (heapStep_is_Some h h' p Hs)).
  - destruct (node_Indicator n) as [p|]; simpl in *; [|done].
    by apply (proj1 (heapStep_indicator_is_Some h h' p Hs)).
Qed.

Lemma elem_of_unresolvedSet h a :
  a ∈ unresolvedSet evID h ↔
  ∃ n, nodes h !! a = Some n ∧ ¬ resolved evID n.
Proof.
  unfold unresolvedSet. rewrite elem_of_dom. split.
  - intros [n Hn]. apply map_lookup_filter_Some in Hn. eauto.
  - intros (n & Hn & Hr). exists n. by apply map_lookup_filter_Some.
Qed.

(** Resolution is monotone: the unresolved set can only shrink. *)
Lemma heapStep_unresolved h h' :
  heapStep evID h h' → unresolvedSet evID h' ⊆ unresolvedSet evID h.
Proof.
  intros Hs a. rewrite !elem_of_unresolvedSet. intros (n' & Hn' & Hr).
  destruct (heapStep_lookup_inv _ _ _ _ Hs Hn') as (n & Hn & _ & _ & Heq & _).
  exists n. split; [done|]. intros Hres. apply Hr. by rewrite (Heq Hres).
Qed.

Lemma unresolvedSet_size h : (size (unresolvedSet evID h) < fuelFor h)%nat.
Proof.
  unfold fuelFor, unresolvedSet. rewrite <- (size_dom (nodes h)).
  apply Nat.lt_succ_r, subseteq_size, subseteq_dom, map_filter_subseteq.
Qed.
End HeapFacts.

(** ** One call, phase by phase *)

Section Phases.
Variable evID : Z.

Lemma childrenTrue_cases h e cs t :
  childrenTrue h e cs = Ok t → t = truthTrue ∨ t = truthUnknown.
Proof.
  revert t. induction cs as [|c cs IH]; simpl; intros t H.
  - left. congruence.
  - ok_inv H. case_decide; [right; congruence|]. by apply IH.
Qed.

Lemma childrenTrue_True h e cs :
  childrenTrue h e cs = Ok truthTrue ↔ Forall (childTrue h e) cs.
Proof.
  induction cs as [|c cs IH]; simpl.
  - split; [constructor|done].
  - split.
    + intros H. ok_inv H. case_decide as Hd; [discriminate|].
      constructor; [|by apply IH].
      exists a. split; [done|].
      destruct (decide (node_eventID a = e)), (decide (node_truth a = truthTrue));
        try done; exfalso; apply Hd; auto.
    + intros H. inversion H as [|? ? (child & Hc & He & Ht) Hrest]; subst.
      rewrite Hc. simpl. rewrite decide_False by (intros [?|?]; done).
      by apply IH.
Qed.

Lemma childrenTrue_Ok h e cs :
  Forall (λ c, is_Some (nodes h !! c)) cs → ∃ t, childrenTrue h e cs = Ok t.
Proof.
  induction 1 as [|c cs [child Hc] _ IH]; simpl; [eauto|].
  rewrite Hc. simpl. case_decide; eauto.
Qed.

(** The operator switch changes at most the receiver's pattern, and only
    when it sets a truth and the receiver has an operator. *)
Lemma evalOperator_inv h a child t h2 :
  evalOperator h a child = Ok (t, h2) →
  ∃ n pat, nodes h !! a = Some n
           ∧ h2 = storeNode a (set_Pattern pat n) h
           ∧ (node_Operator n = "" → pat = node_Pattern n)
           ∧ (t = truthUnknown → pat = node_Pattern n)
           ∧ (t = truthUnknown ∨ settable (node_Operator n) t).
Proof.
  unfold evalOperator. intros H. ok_inv H. rename a0 into n, a1 into c.
  assert (Hsame : h = storeNode a (set_Pattern (node_Pattern n) n) h).
  { by rewrite set_Pattern_same, storeNode_same. }
  assert (∀ e cs u, childrenTrue h e cs = Ok u →
            node_Operator n = "AND" →
            u = truthUnknown ∨ settable (node_Operator n) u) as Hand.
  { intros e cs u Hu Hop. apply childrenTrue_cases in Hu as [-> | ->]; simpl; auto. }
  assert (∀ u, u = truthUnknown ∨ settable "" u) as Hleaf.
  { intros []; simpl; auto. }
  repeat first [case_decide | progress (ok_inv H)]; subst;
    (first [ exists n, (node_Pattern n); split; [done|]; split; [exact Hsame|]
           | eexists n, _; split; [done|]; split; [reflexivity|] ]);
    (split; [intros; intuition congruence|]);
    (split; [intros; intuition congruence|]);
    first
      [ by eapply Hand
      | match goal with
        | Hx : node_Operator n = _ |- _ =>
            rewrite Hx; first [apply Hleaf | simpl; by auto 6]
        end
      | by left ].
Qed.

Lemma evalOperator_step h a child t h2 n :
  evalOperator h a child = Ok (t, h2) →
  nodes h !! a = Some n → node_truth n = truthUnknown →
  heapStep evID h h2
  ∧ ∃ n2, nodes h2 !! a = Some n2 ∧ nodeStep evID n n2
          ∧ node_truth n2 = truthUnknown ∧ node_eventID n2 = node_eventID n
          ∧ (t = truthUnknown ∨ settable (node_Operator n2) t).
Proof.
  intros H Hn Ht.
  apply evalOperator_inv in H as (n' & pat & Hn' & -> & Hleaf & _ & Hset).
  assert (n' = n) as -> by congruence.
  assert (nodeStep evID n (set_Pattern pat n)) as Hs.
  { split; [by repeat split|]. split; [apply Hleaf|].
    split; [|by left]. intros [_ Hr]. done. }
  split; [by apply (storeNode_step evID a n)|].
  exists (set_Pattern pat n). by rewrite storeNode_lookup.
Qed.

(** Line 182: storing an assignable truth into an unresolved node. *)
Lemma set_truth_step n t :
  node_truth n = truthUnknown →
  t = truthUnknown ∨ settable (node_Operator n) t →
  nodeStep evID n (set_truth t n).
Proof.
  intros Hu Hset. split; [by repeat split|]. split; [done|].
  split; [by intros [_ Hr]|]. simpl. destruct Hset; auto.
Qed.

Lemma emitIndicator_inv h a h' l :
  emitIndicator h a = Ok (h', l) →
  ∃ n, nodes h !! a = Some n ∧ nodes h' = nodes h ∧ heapStep evID h h'
       ∧ (l = [] ∨ ∃ p, l = [p] ∧ node_Indicator n = Some p
                         ∧ node_truth n = truthTrue).
Proof.
  unfold emitIndicator. intros H. ok_inv H. rename a0 into n.
  exists n. split; [done|].
  case_decide as Ht; [|ok_inv H; subst; split; [done|split; [apply heapStep_refl|by left]]].
  destruct (node_Indicator n) as [p|] eqn:Hi;
    [|ok_inv H; subst; split; [done|split; [apply heapStep_refl|by left]]].
  destruct (node_Pattern n) as [pat|].
  - destruct (node_UseOriginalIndicatorValue n).
    + ok_inv H; subst. split; [done|split; [apply heapStep_refl|right; eauto]].
    + ok_inv H; subst. split; [done|]. split; [|right; eauto].
      eapply storeIndicator_step; [done|]. by repeat split.
  - ok_inv H; subst. split; [done|split; [apply heapStep_refl|right; eauto]].
Qed.

Lemma setTruth_inv fuel a child h r :
  setTruth (S fuel) a child evID h = Ok r →
  ∃ n0 c0, nodes h !! a = Some n0 ∧ deref h child = Some c0
    ∧ ((node_truth c0 = truthUnknown ∧ r = (h, [], []))
       ∨ (node_truth c0 ≠ truthUnknown ∧ touchCases evID fuel a child h n0 r)).
Proof.
  cbn [setTruth]. intros H. ok_inv H. rename a0 into n0, a1 into c0.
  exists n0, c0. split; [done|]. split; [done|].
  case_decide as Hc; [left; ok_inv H; by subst|].
  right. split; [done|]. unfold touchCases.
  case_decide as Hu; [|left; ok_inv H; by subst].
  right. split; [done|].
  apply bind_Ok in H as ([t h2] & He & H).
  exists t, h2. split; [done|].
  case_decide as Ht; [|left; ok_inv H; by subst].
  right. split; [done|].
  apply bind_Ok in H as (n2 & Hn2 & H). apply orPanic_Ok in Hn2.
  apply bind_Ok in H as ([h4 i0] & Hem & H).
  by exists n2, h4, i0.
Qed.
End Phases.

(** ** Invariants of a whole call *)

Section CallInvariants.
Variable evID : Z.

Lemma emission_nil h h' : emission evID h h' [].
Proof. exists []. split; constructor. Qed.

Lemma emits_step_r h1 h2 h3 a p :
  heapStep evID h2 h3 → emits evID h1 h2 a p → emits evID h1 h3 a p.
Proof.
  intros Hs (Hu & n' & Hn' & Hr & Ht & Hi). split; [done|].
  exists n'. by rewrite (heapStep_resolved evID h2 h3 a n').
Qed.

Lemma emits_step_l h1 h2 h3 a p :
  heapStep evID h1 h2 → emits evID h2 h3 a p → emits evID h1 h3 a p.
Proof.
  intros Hs (Hu & Hn'). split; [|done].
  by apply (heapStep_unresolved evID h1 h2).
Qed.

Lemma emission_trans h1 h2 h3 i1 i2 :
  heapStep evID h1 h2 → heapStep evID h2 h3 →
  emission evID h1 h2 i1 → emission evID h2 h3 i2 →
  emission evID h1 h3 (i1 ++ i2).
Proof.
  intros S12 S23 (L1 & N1 & F1) (L2 & N2 & F2).
  exists (L1 ++ L2). split.
  - apply NoDup_app. split; [done|]. split; [|done].
    intros a Ha1 Ha2.
    apply list_elem_of_lookup in Ha1 as [k1 Hk1].
    apply list_elem_of_lookup in Ha2 as [k2 Hk2].
    destruct (Forall2_lookup_l _ _ _ _ _ F1 Hk1) as (p1 & _ & _ & n' & Hn' & Hr & _).
    destruct (Forall2_lookup_l _ _ _ _ _ F2 Hk2) as (p2 & _ & Hu & _).
    apply elem_of_unresolvedSet in Hu as (n & Hn & Hnr). congruence.
  - apply Forall2_app.
    + eapply Forall2_impl; [exact F1|]. intros a p. by apply emits_step_r.
    + eapply Forall2_impl; [exact F2|]. intros a p. by apply emits_step_l.
Qed.

(** The parent loop threads the heap and only appends to its two
    accumulators. *)
Lemma parentsLoop_inv
    (call : addr → Heap → outcome (Heap * list iaddr * list Z)) :
  (∀ p h h' i d, call p h = Ok (h', i, d) →
     heapStep evID h h' ∧ emission evID h h' i) →
  ∀ ps h i0 d0 h' i d,
    parentsLoop call ps h i0 d0 = Ok (h', i, d) →
    heapStep evID h h'
    ∧ ∃ i1 d1, i = i0 ++ i1 ∧ d = d0 ++ d1 ∧ emission evID h h' i1.
Proof.
  intros Hcall ps. induction ps as [|p ps IH]; simpl; intros h i0 d0 h' i d H.
  - ok_inv H. subst. split; [apply heapStep_refl|].
    exists [], []. rewrite !app_nil_r. by split; [|split; [|apply emission_nil]].
  - apply bind_Ok in H as ([[hp ip] dp] & Hp & H).
    destruct (Hcall _ _ _ _ _ Hp) as [Sp Ep].
    destruct (IH _ _ _ _ _ _ H) as (Sr & i1 & d1 & -> & -> & Er).
    split; [by eapply heapStep_trans|].
    exists (ip ++ i1), (dp ++ d1). rewrite !app_assoc.
    split; [done|]. split; [done|]. by eapply emission_trans.
Qed.

Lemma unresolved_of_reset h a n0 :
  nodes h !! a = Some n0 → node_truth (resetNode evID n0) = truthUnknown →
  a ∈ unresolvedSet evID h.
Proof.
  intros Hn Hu. apply elem_of_unresolvedSet. exists n0. split; [done|].
  intros Hr. rewrite (resetNode_resolved evID n0 Hr) in Hu. by destruct Hr.
Qed.

(** The state of the receiver once its truth has been set (line 182), and
    what lines 185-208 return for it. *)
Lemma resolve_step h a child n0 t h2 n2 h4 i0 :
  nodes h !! a = Some n0 →
  node_truth (resetNode evID n0) = truthUnknown →
  evalOperator (storeNode a (resetNode evID n0) h) a child = Ok (t, h2) →
  t ≠ truthUnknown →
  nodes h2 !! a = Some n2 →
  emitIndicator (storeNode a (set_truth t n2) h2) a = Ok (h4, i0) →
  heapStep evID h h4
  ∧ nodes h4 !! a = Some (set_truth t n2)
  ∧ resolved evID (set_truth t n2)
  ∧ nodeStep evID (resetNode evID n0) n2
  ∧ emission evID h h4 i0.
Proof.
  intros Hn Hu He Ht Hn2 Hem.
  pose proof (storeNode_step evID a n0 _ h Hn (resetNode_step evID n0)) as S1.
  destruct (evalOperator_step evID _ _ _ _ _ _ He (storeNode_lookup _ _ _) Hu)
    as (S2 & n2' & Hn2' & Hst & Htr & Hev & Hset).
  assert (n2' = n2) as -> by congruence.
  pose proof (set_truth_step evID n2 t Htr Hset) as Hs3.
  pose proof (storeNode_step evID a n2 _ h2 Hn2 Hs3) as S3.
  apply (emitIndicator_inv evID) in Hem as (n3 & Hn3 & Hnodes & S4 & Hl).
  rewrite storeNode_lookup in Hn3. injection Hn3 as <-.
  assert (resolved evID (set_truth t n2)) as Hres.
  { split; [|done]. simpl. rewrite Hev. apply resetNode_eventID. }
  assert (heapStep evID h h4) as S.
  { eapply heapStep_trans; [exact S1|]. eapply heapStep_trans; [exact S2|].
    eapply heapStep_trans; [exact S3|exact S4]. }
  split; [done|]. split; [by rewrite Hnodes, storeNode_lookup|].
  split; [done|]. split; [done|].
  destruct Hl as [->|(p & -> & Hp & Htt)]; [apply emission_nil|].
  exists [a]. split; [apply NoDup_singleton|].
  constructor; [|constructor]. split; [by eapply unresolved_of_reset|].
  exists (set_truth t n2). by rewrite Hnodes, storeNode_lookup.
Qed.

(** Every returning call only moves nodes forward for the event and
    reports indicators of nodes it resolved true itself. *)
Lemma setTruth_inv_step fuel :
  ∀ a child h h' i d,
    setTruth fuel a child evID h = Ok (h', i, d) →
    heapStep evID h h' ∧ emission evID h h' i.
Proof.
  induction fuel as [|fuel IH]; intros a child h h' i d H; [discriminate|].
  apply setTruth_inv in H as (n0 & c0 & Hn & Hc & [[_ Hr]|[Hk Hcases]]).
  { simplify_eq. split; [apply heapStep_refl|apply emission_nil]. }
  pose proof (storeNode_step evID a n0 _ h Hn (resetNode_step evID n0)) as S1.
  destruct Hcases as [[_ Hr]|(Hu & t & h2 & He & [[-> Hr]|(Ht & n2 & h4 & i0 & Hn2 & Hem & Hl)])].
  - simplify_eq. split; [done|apply emission_nil].
  - simplify_eq. split; [|apply emission_nil].
    destruct (evalOperator_step evID _ _ _ _ _ _ He (storeNode_lookup _ _ _) Hu)
      as (S2 & _).
    by eapply heapStep_trans.
  - destruct (resolve_step _ _ _ _ _ _ _ _ _ Hn Hu He Ht Hn2 Hem)
      as (S4 & _ & _ & _ & E4).
    apply (parentsLoop_inv _ (λ p, IH p (ref_node a))) in Hl
      as (S5 & i1 & d1 & -> & -> & E5).
    split; [by eapply heapStep_trans|]. by eapply emission_trans.
Qed.

Lemma setTruth_heapStep fuel a child h h' i d :
  setTruth fuel a child evID h = Ok (h', i, d) → heapStep evID h h'.
Proof. intros H. by apply setTruth_inv_step in H as [? _]. Qed.
End CallInvariants.

(** ** Termination and absence of panics *)

Section Termination.
Variable evID : Z.

Lemma bind_fueled {A B} (m : outcome A) (f : A → outcome B) :
  m ≠ OutOfFuel → (∀ a, m = Ok a → f a ≠ OutOfFuel) → m ≫= f ≠ OutOfFuel.
Proof. destruct m; simpl; eauto. Qed.

Lemma orPanic_fueled {A} (o : option A) : orPanic o ≠ OutOfFuel.
Proof. by destruct o. Qed.

Lemma childrenTrue_fueled h e cs : childrenTrue h e cs ≠ OutOfFuel.
Proof.
  induction cs as [|c cs IH]; simpl; [done|].
  apply bind_fueled; [apply orPanic_fueled|]. intros child _.
  by case_decide.
Qed.

Lemma evalOperator_fueled h a child : evalOperator h a child ≠ OutOfFuel.
Proof.
  unfold evalOperator.
  repeat first
    [ done
    | apply orPanic_fueled
    | apply childrenTrue_fueled
    | apply bind_fueled; [|intros ? _]
    | case_decide ].
Qed.

Lemma emitIndicator_fueled h a : emitIndicator h a ≠ OutOfFuel.
Proof.
  unfold emitIndicator.
  apply bind_fueled; [apply orPanic_fueled|]. intros n _.
  case_decide; [|done]. destruct (node_Indicator n); [|done].
  destruct (node_Pattern n).
  - destruct (node_UseOriginalIndicatorValue n); [done|].
    apply bind_fueled; [apply orPanic_fueled|]. done.
  - apply bind_fueled; [apply orPanic_fueled|]. done.
Qed.

Lemma unresolved_shrinks h h4 a n4 (fuel : nat) :
  heapStep evID h h4 → a ∈ unresolvedSet evID h →
  nodes h4 !! a = Some n4 → resolved evID n4 →
  (size (unresolvedSet evID h) < S fuel)%nat →
  (size (unresolvedSet evID h4) < fuel)%nat.
Proof.
  intros Hs Ha Hn4 Hr Hlt.
  assert (unresolvedSet evID h4 ⊂ unresolvedSet evID h) as Hsub.
  { split; [by apply heapStep_unresolved|].
    intros Hback. specialize (Hback a Ha).
    apply elem_of_unresolvedSet in Hback as (n & Hn & Hnr). congruence. }
  apply subset_size in Hsub. lia.
Qed.

Lemma parentsLoop_fueled
    (call : addr → Heap → outcome (Heap * list iaddr * list Z)) (bound : nat) :
  (∀ p h, (size (unresolvedSet evID h) < bound)%nat → call p h ≠ OutOfFuel) →
  (∀ p h h' i d, call p h = Ok (h', i, d) → heapStep evID h h') →
  ∀ ps h i0 d0,
    (size (unresolvedSet evID h) < bound)%nat →
    parentsLoop call ps h i0 d0 ≠ OutOfFuel.
Proof.
  intros Hf Hs ps. induction ps as [|p ps IH]; simpl; intros h i0 d0 Hlt; [done|].
  apply bind_fueled; [by apply Hf|]. intros [[h' i] d] Hp.
  apply IH. pose proof (heapStep_unresolved evID h h' (Hs _ _ _ _ _ Hp)) as Hsub.
  apply subseteq_size in Hsub. lia.
Qed.

(** With more fuel than there are unresolved nodes, a call never stops
    for lack of fuel: the recursion is bounded even on a cyclic graph. *)
Lemma setTruth_fueled fuel :
  ∀ a child h,
    (size (unresolvedSet evID h) < fuel)%nat →
    setTruth fuel a child evID h ≠ OutOfFuel.
Proof.
  induction fuel as [|fuel IH]; intros a child h Hlt; [lia|].
  cbn [setTruth].
  apply bind_fueled; [apply orPanic_fueled|]. intros n0 Hn%orPanic_Ok.
  apply bind_fueled; [apply orPanic_fueled|]. intros c0 Hc%orPanic_Ok.
  case_decide as Hk; [done|]. case_decide as Hu; [|done].
  apply bind_fueled; [apply evalOperator_fueled|]. intros [t h2] He.
  case_decide as Ht; [|done].
  apply bind_fueled; [apply orPanic_fueled|]. intros n2 Hn2%orPanic_Ok.
  apply bind_fueled; [apply emitIndicator_fueled|]. intros [h4 i0] Hem.
  destruct (resolve_step evID _ _ _ _ _ _ _ _ _ Hn Hu He Ht Hn2 Hem)
    as (S4 & Hn4 & Hr4 & _).
  apply (parentsLoop_fueled _ fuel).
  - intros p h0 Hlt0. by apply IH.
  - intros p h0 h0' i d. apply setTruth_heapStep.
  - eapply unresolved_shrinks; eauto. by eapply unresolved_of_reset.
Qed.

Lemma evalOperator_Ok h a child n :
  wf h → nodes h !! a = Some n → is_Some (deref h child) →
  ∃ r, evalOperator h a child = Ok r.
Proof.
  intros Hwf Hn [c Hc]. unfold evalOperator. rewrite Hn, Hc. simpl.
  destruct (Hwf a n Hn) as (_ & Wc & _ & Wand).
  repeat case_decide; eauto.
  destruct (childrenTrue_Ok h (node_eventID n) _ Wc) as [t ->]. simpl.
  case_decide; [|eauto].
  destruct (node_Children n) as [|c1 cs]; [by destruct Wand|]. simpl.
  apply Forall_cons in Wc as [[first ->] _]. simpl. eauto.
Qed.

Lemma emitIndicator_Ok h a n :
  wf h → nodes h !! a = Some n → ∃ r, emitIndicator h a = Ok r.
Proof.
  intros Hwf Hn. unfold emitIndicator. rewrite Hn. simpl.
  destruct (Hwf a n Hn) as (_ & _ & Wi & _).
  case_decide; [|eauto]. destruct (node_Indicator n) as [p|]; [|eauto].
  simpl in Wi. destruct Wi as [i ->].
  destruct (node_Pattern n); [destruct (node_UseOriginalIndicatorValue n)|];
    simpl; eauto.
Qed.

Lemma parentsLoop_Ok
    (call : addr → Heap → outcome (Heap * list iaddr * list Z))
    (bound : nat) (a : addr) :
  (∀ p h, wf h → is_Some (nodes h !! p) → is_Some (nodes h !! a) →
          (size (unresolvedSet evID h) < bound)%nat →
          ∃ r, call p h = Ok r) →
  (∀ p h h' i d, call p h = Ok (h', i, d) → heapStep evID h h') →
  ∀ ps h i0 d0,
    wf h → Forall (λ p, is_Some (nodes h !! p)) ps →
    is_Some (nodes h !! a) →
    (size (unresolvedSet evID h) < bound)%nat →
    ∃ r, parentsLoop call ps h i0 d0 = Ok r.
Proof.
  intros Hok Hs ps. induction ps as [|p ps IH]; simpl;
    intros h i0 d0 Hwf Hps Ha Hlt; [eauto|].
  apply Forall_cons in Hps as [Hp Hps].
  destruct (Hok p h Hwf Hp Ha Hlt) as [[[h' i] d] Hcall]. rewrite Hcall. simpl.
  pose proof (Hs _ _ _ _ _ Hcall) as Hstep.
  apply IH.
  - by eapply heapStep_wf.
  - eapply Forall_impl; [exact Hps|]. intros q Hq. simpl in *.
    by apply (proj1 (heapStep_is_Some evID h h' q Hstep)).
  - by apply (proj1 (heapStep_is_Some evID h h' a Hstep)).
  - pose proof (heapStep_unresolved evID h h' Hstep) as Hsub.
    apply subseteq_size in Hsub. lia.
Qed.

(** On a well-formed graph a call on a valid node returns. *)
Lemma setTruth_Ok fuel :
  ∀ a child h,
    wf h → is_Some (nodes h !! a) → is_Some (deref h child) →
    (size (unresolvedSet evID h) < fuel)%nat →
    ∃ r, setTruth fuel a child evID h = Ok r.
Proof.
  induction fuel as [|fuel IH]; intros a child h Hwf [n0 Hn] Hc Hlt; [lia|].
  cbn [setTruth]. rewrite Hn. simpl. destruct Hc as [c0 Hc]. rewrite Hc. simpl.
  case_decide as Hk; [eauto|]. case_decide as Hu; [|eauto].
  pose proof (storeNode_step evID a n0 _ h Hn (resetNode_step evID n0)) as S1.
  destruct (evalOperator_Ok (storeNode a (resetNode evID n0) h) a child
              (resetNode evID n0)) as [[t h2] He].
  { by eapply heapStep_wf. }
  { apply storeNode_lookup. }
  { destruct child; simpl; eauto.
    apply (proj1 (heapStep_is_Some evID h _ a0 S1)). simpl in Hc. eauto. }
  rewrite He. simpl. case_decide as Ht; [|eauto].
  destruct (evalOperator_step evID _ _ _ _ _ _ He (storeNode_lookup _ _ _) Hu)
    as (S2 & n2 & Hn2 & _ & Htr & _ & Hset).
  rewrite Hn2. simpl.
  destruct (emitIndicator_Ok (storeNode a (set_truth t n2) h2) a
              (set_truth t n2)) as [[h4 i0] Hem].
  { eapply heapStep_wf; [|eapply heapStep_wf; [exact S2|by eapply heapStep_wf]].
    apply (storeNode_step evID a n2); [done|].
    by apply set_truth_step. }
  { apply storeNode_lookup. }
  rewrite Hem. simpl.
  destruct (resolve_step evID _ _ _ _ _ _ _ _ _ Hn Hu He Ht Hn2 Hem)
    as (S4 & Hn4 & Hr4 & Hst & _).
  apply (parentsLoop_Ok _ fuel a).
  - intros p h0 Hwf0 Hp Ha Hlt0. apply IH; simpl; auto.
  - intros p h0 h0' i d. apply setTruth_heapStep.
  - by eapply heapStep_wf.
  - destruct (heapStep_wf evID h h4 S4 Hwf a _ Hn4) as (Wp & _).
    exact Wp.
  - eauto.
  - eapply unresolved_shrinks; eauto. by eapply unresolved_of_reset.
Qed.
End Termination.

(** ** Fuel is only a bound *)

Section Fuel.
Variable evID : Z.

Lemma parentsLoop_more_fuel
    (call call' : addr → Heap → outcome (Heap * list iaddr * list Z)) :
  (∀ p h, call p h ≠ OutOfFuel → call' p h = call p h) →
  ∀ ps h i0 d0,
    parentsLoop call ps h i0 d0 ≠ OutOfFuel →
    parentsLoop call' ps h i0 d0 = parentsLoop call ps h i0 d0.
Proof.
  intros Hcall ps. induction ps as [|p ps IH]; simpl; intros h i0 d0 H; [done|].
  destruct (call p h) as [[[h' i] d]| |] eqn:Hp; simpl in *; try done.
  - rewrite Hcall by congruence. rewrite Hp. simpl. by apply IH.
  - rewrite Hcall by congruence. by rewrite Hp.
Qed.

Lemma setTruth_fuel_S fuel :
  ∀ a child h,
    setTruth fuel a child evID h ≠ OutOfFuel →
    setTruth (S fuel) a child evID h = setTruth fuel a child evID h.
Proof.
  induction fuel as [|fuel IH]; intros a child h H; [done|].
  revert H. cbn [setTruth].
  destruct (nodes h !! a) as [n0|]; simpl; [|done].
  destruct (deref h child) as [c0|]; simpl; [|done].
  case_decide; [done|]. case_decide; [|done].
  destruct (evalOperator _ a child) as [[t h2]| |]; simpl; try done.
  case_decide; [|done].
  destruct (nodes h2 !! a) as [n2|]; simpl; [|done].
  destruct (emitIndicator _ a) as [[h4 i0]| |]; simpl; try done.
  apply parentsLoop_more_fuel. intros p h0. apply IH.
Qed.

Lemma setTruth_fuel_le fuel fuel' a child h :
  (fuel ≤ fuel')%nat → setTruth fuel a child evID h ≠ OutOfFuel →
  setTruth fuel' a child evID h = setTruth fuel a child evID h.
Proof.
  induction 1 as [|fuel' Hle IH]; intros H; [done|].
  rewrite setTruth_fuel_S; [by apply IH|]. by rewrite IH.
Qed.

(** [Fire] and [ResolveNot] never stop for lack of fuel, and any larger
    amount of fuel gives the same result. *)
Lemma Fire_fueled a h : Fire a evID h ≠ OutOfFuel.
Proof. apply setTruth_fueled, unresolvedSet_size. Qed.

Lemma ResolveNot_fueled a h : ResolveNot a evID h ≠ OutOfFuel.
Proof. apply setTruth_fueled, unresolvedSet_size. Qed.

Lemma Fire_fuel fuel a h :
  (fuelFor h ≤ fuel)%nat → setTruth fuel a ref_trueNode evID h = Fire a evID h.
Proof. intros Hle. apply setTruth_fuel_le; [done|apply Fire_fueled]. Qed.

Lemma ResolveNot_fuel fuel a h :
  (fuelFor h ≤ fuel)%nat →
  setTruth fuel a ref_falseNode evID h = ResolveNot a evID h.
Proof. intros Hle. apply setTruth_fuel_le; [done|apply ResolveNot_fueled]. Qed.

(** On a well-formed graph, [Fire] and [ResolveNot] on a node of the graph
    return. *)
Lemma Fire_Ok a h :
  wf h → is_Some (nodes h !! a) → ∃ r, Fire a evID h = Ok r.
Proof.
  intros Hwf Ha. apply setTruth_Ok; [done..| |apply unresolvedSet_size].
  by eexists.
Qed.

Lemma ResolveNot_Ok a h :
  wf h → is_Some (nodes h !! a) → ∃ r, ResolveNot a evID h = Ok r.
Proof.
  intros Hwf Ha. apply setTruth_Ok; [done..| |apply unresolvedSet_size].
  by eexists.
Qed.
End Fuel.

(** ** The receiver of a call *)

Section Receiver.
Variable evID : Z.

Lemma set_truth_same n : set_truth (node_truth n) n = n.
Proof. by destruct n. Qed.

Lemma unresolved_reset n :
  ¬ resolved evID n ↔ node_truth (resetNode evID n) = truthUnknown.
Proof.
  rewrite resetNode_truth. unfold truthFor, resolved. case_decide as He.
  - split; [|tauto]. intros Hr.
    destruct (decide (node_truth n = truthUnknown)); [done|]. by destruct Hr.
  - split; [done|]. tauto.
Qed.

Lemma deref_storeNode h a n child :
  child ≠ ref_node a → deref (storeNode a n h) child = deref h child.
Proof.
  destruct child as [| |b]; simpl; try done. intros Hne.
  apply lookup_insert_ne. congruence.
Qed.

Lemma childTrue_storeNode h a n0 n1 c :
  nodes h !! a = Some n0 → ¬ resolved evID n0 → ¬ resolved evID n1 →
  childTrue (storeNode a n1 h) evID c ↔ childTrue h evID c.
Proof.
  intros Hn Hr0 Hr1. unfold childTrue. simpl.
  destruct (decide (a = c)) as [<-|Hne].
  - rewrite lookup_insert_eq, Hn.
    split; intros (ch & Hch & He & Ht); exfalso; simplify_eq;
      [apply Hr1|apply Hr0]; split; congruence.
  - by rewrite lookup_insert_ne.
Qed.

(** A returning call on a receiver that is not yet resolved for the event
    went through the operator switch; the receiver ends with the truth the
    switch chose, and nothing else happens when that is unknown. *)
Lemma setTruth_touch fuel a child h h' i d n0 c0 :
  setTruth fuel a child evID h = Ok (h', i, d) →
  nodes h !! a = Some n0 → deref h child = Some c0 →
  node_truth c0 ≠ truthUnknown → ¬ resolved evID n0 →
  ∃ t h2 n2,
    evalOperator (storeNode a (resetNode evID n0) h) a child = Ok (t, h2)
    ∧ nodes h2 !! a = Some n2
    ∧ node_truth n2 = truthUnknown ∧ node_eventID n2 = evID
    ∧ nodes h' !! a = Some (set_truth t n2)
    ∧ (t = truthUnknown →
       h' = h2 ∧ i = [] ∧ d = node_SiblingNots n0)
    ∧ (t ≠ truthUnknown → ∃ rest, d = node_SiblingNots n0 ++ rest).
Proof.
  intros H Hn Hc Hk Hnr. destruct fuel as [|fuel]; [discriminate|].
  apply unresolved_reset in Hnr.
  apply setTruth_inv in H as (n0' & c0' & Hn' & Hc' & Hcases).
  assert (n0' = n0) as -> by congruence.
  assert (c0' = c0) as -> by congruence.
  destruct Hcases as [[? _]|[_ Hcases]]; [done|].
  destruct Hcases as [[? _]|(Hu & t & h2 & He & Hcases)]; [done|].
  destruct (evalOperator_step evID _ _ _ _ _ _ He (storeNode_lookup _ _ _) Hu)
    as (S2 & n2 & Hn2 & _ & Htr & Hev & _).
  rewrite resetNode_eventID in Hev.
  exists t, h2, n2. do 4 (split; [done|]).
  destruct Hcases as [[-> Hr]|(Ht & n2' & h4 & i0 & Hn2' & Hem & Hl)].
  - injection Hr as -> -> ->. rewrite <- Htr, set_truth_same. by rewrite Htr.
  - assert (n2' = n2) as -> by congruence.
    destruct (resolve_step evID _ _ _ _ _ _ _ _ _ Hn Hu He Ht Hn2 Hem)
      as (_ & Hn4 & Hr4 & _).
    apply (parentsLoop_inv evID _ (λ p, setTruth_inv_step evID fuel p (ref_node a)))
      in Hl as (S5 & i1 & d1 & -> & -> & _).
    split; [by apply (heapStep_resolved evID h4)|]. split; [done|]. eauto.
Qed.

Lemma evalOperator_OR h a child n c :
  nodes h !! a = Some n → deref h child = Some c →
  node_Operator n = "OR" →
  evalOperator h a child =
    Ok (if decide (node_truth c = truthTrue)
        then (truthTrue,
              if decide (node_Pattern n = None)
              then storeNode a (set_Pattern (node_Pattern c) n) h else h)
        else (truthUnknown, h)).
Proof.
  intros Hn Hc Hop. unfold evalOperator. rewrite Hn, Hc. simpl. rewrite Hop.
  by repeat case_decide.
Qed.

Lemma evalOperator_NOT h a child n c :
  nodes h !! a = Some n → deref h child = Some c →
  node_Operator n = "NOT" →
  evalOperator h a child =
    Ok (if decide (node_truth c = truthTrue) then truthFalse else truthTrue, h).
Proof.
  intros Hn Hc Hop. unfold evalOperator. rewrite Hn, Hc. simpl. rewrite Hop.
  by repeat case_decide.
Qed.

Lemma evalOperator_unrecognised h a child n c :
  nodes h !! a = Some n → deref h child = Some c →
  node_Operator n ≠ "" → node_Operator n ≠ "OR" →
  node_Operator n ≠ "AND" → node_Operator n ≠ "NOT" →
  evalOperator h a child = Ok (truthUnknown, h).
Proof.
  intros Hn Hc H1 H2 H3 H4. unfold evalOperator. rewrite Hn, Hc. simpl.
  by repeat case_decide.
Qed.

Lemma evalOperator_AND_False h a child n c :
  nodes h !! a = Some n → deref h child = Some c →
  node_Operator n = "AND" → node_truth c = truthFalse →
  evalOperator h a child = Ok (truthFalse, h).
Proof.
  intros Hn Hc Hop Ht. unfold evalOperator. rewrite Hn, Hc. simpl. rewrite Hop.
  by repeat case_decide.
Qed.

Lemma evalOperator_AND_True h a child n c t h2 :
  nodes h !! a = Some n → deref h child = Some c →
  node_Operator n = "AND" → node_truth c = truthTrue →
  evalOperator h a child = Ok (t, h2) →
  childrenTrue h (node_eventID n) (node_Children n) = Ok t
  ∧ (t = truthUnknown → h2 = h)
  ∧ (t = truthTrue → node_Pattern n ≠ None → h2 = h)
  ∧ (t = truthTrue → node_Pattern n = None →
     ∃ c0 first, head (node_Children n) = Some c0
                 ∧ nodes h !! c0 = Some first
                 ∧ h2 = storeNode a (set_Pattern (node_Pattern first) n) h).
Proof.
  intros Hn Hc Hop Ht. unfold evalOperator. rewrite Hn, Hc. simpl. rewrite Hop.
  rewrite decide_True by done. rewrite decide_False by done.
  rewrite decide_True by done. rewrite decide_False by congruence.
  intros H. ok_inv H. rename a0 into u.
  case_decide as Hd.
  - ok_inv H. subst. destruct Hd as [-> Hp].
    split; [done|]. split; [done|]. split; [done|]. eauto.
  - ok_inv H. subst. split; [done|]. split; [done|]. split; [done|].
    intros -> Hp. exfalso. by apply Hd.
Qed.
End Receiver.

(** ** The example graph is well formed *)

Lemma tor_wf : wf Graphs.tor.
Proof. apply (bool_decide_unpack _). by vm_compute. Qed.

(** * Properties of the propagation engine *)

(** C3 — NOT nodes.  A NOT node that is touched with a known child truth
    while not yet resolved for the event ends the call resolved: false when
    the incoming truth is true, true when it is false.  On a well-formed
    graph the call returns. *)
Theorem NOT_node_resolution
    (fuel : nat) (a : addr) (child : nodeRef) (evID : Z) (h : Heap)
    (n c : IndicatorNode) :
  nodes h !! a = Some n → node_Operator n = "NOT" → ¬ resolved evID n →
  deref h child = Some c → child ≠ ref_node a →
  node_truth c ≠ truthUnknown →
  (wf h → (size (unresolvedSet evID h) < fuel)%nat →
   ∃ r, setTruth fuel a child evID h = Ok r)
  ∧ (∀ h' inds nots,
       setTruth fuel a child evID h = Ok (h', inds, nots) →
       ∃ n', nodes h' !! a = Some n' ∧ node_eventID n' = evID
             ∧ (node_truth c = truthTrue → node_truth n' = truthFalse)
             ∧ (node_truth c = truthFalse → node_truth n' = truthTrue)
             ∧ node_truth n' ≠ truthUnknown).
Proof.
  intros Hn Hop Hnr Hc Hne Hk. split.
  { intros Hwf Hlt. apply setTruth_Ok; eauto. }
  intros h' inds nots H.
  destruct (setTruth_touch evID _ _ _ _ _ _ _ _ _ H Hn Hc Hk Hnr)
    as (t & h2 & n2 & He & Hn2 & Htr & Hev & Hfin & _).
  rewrite (evalOperator_NOT _ a child (resetNode evID n) c) in He.
  - injection He as <- <-. exists (set_truth (if decide (node_truth c = truthTrue)
                                               then truthFalse else truthTrue) n2).
    split; [done|]. split; [done|]. simpl.
    case_decide as Ht; repeat split; try done; congruence.
  - apply storeNode_lookup.
  - by rewrite deref_storeNode.
  - by destruct (resetNode_step evID n) as ((_ & _ & _ & -> & _) & _).
Qed.

Lemma NOT_node_resolution_witness :
  ∃ h' inds nots n',
    ResolveNot 6 1 Graphs.tor = Ok (h', inds, nots)
    ∧ nodes h' !! 6%nat = Some n' ∧ node_truth n' = truthTrue.
Proof.
  destruct (NOT_node_resolution (fuelFor Graphs.tor) 6 ref_falseNode 1
              Graphs.tor (Graphs.operator "NOT" None [0]%nat [9]%nat [])
              falseNode)
    as [Hret Hprop].
  - reflexivity.
  - reflexivity.
  - intros [He _]. discriminate He.
  - reflexivity.
  - discriminate.
  - discriminate.
  - destruct (Hret tor_wf (unresolvedSet_size 1 Graphs.tor)) as [[[h' inds] nots] Hr].
    destruct (Hprop h' inds nots Hr) as (n' & Hn' & _ & _ & Ht & _).
    exists h', inds, nots, n'. split; [exact Hr|]. split; [exact Hn'|].
    apply Ht. reflexivity.
Defined.

Lemma resetNode_Operator evID n :
  node_Operator (resetNode evID n) = node_Operator n.
Proof. by destruct (resetNode_step evID n) as ((_ & _ & _ & -> & _) & _). Qed.

Lemma resetNode_Children evID n :
  node_Children (resetNode evID n) = node_Children n.
Proof.
  by destruct (resetNode_step evID n) as ((_ & _ & _ & _ & _ & _ & -> & _) & _).
Qed.

Lemma resetNode_SiblingNots evID n :
  node_SiblingNots (resetNode evID n) = node_SiblingNots n.
Proof.
  by destruct (resetNode_step evID n)
    as ((_ & _ & _ & _ & _ & _ & _ & -> & _) & _).
Qed.

Lemma deref_storeNode_is_Some h a n n' child :
  nodes h !! a = Some n → is_Some (deref h child) →
  is_Some (deref (storeNode a n' h) child).
Proof.
  intros Hn Hc. destruct child as [| |b]; simpl in *; try done.
  destruct (decide (a = b)) as [->|Hne].
  - rewrite lookup_insert_eq. eauto.
  - by rewrite lookup_insert_ne.
Qed.

(** C9 — Unrecognised operator.  A touch of a node whose operator is
    non-empty and none of OR, AND, NOT returns normally with any positive
    fuel (so without calling a parent), reports no indicator, changes nothing
    but the reset of the node itself and leaves its truth unknown; no call
    whatsoever makes the truth of such a node known. *)
Theorem unrecognised_operator_touch
    (fuel : nat) (a : addr) (child : nodeRef) (evID : Z) (h : Heap)
    (n c : IndicatorNode) :
  nodes h !! a = Some n →
  node_Operator n ≠ "" → node_Operator n ≠ "OR" →
  node_Operator n ≠ "AND" → node_Operator n ≠ "NOT" →
  deref h child = Some c → node_truth c ≠ truthUnknown →
  setTruth (S fuel) a child evID h
    = Ok (storeNode a (resetNode evID n) h, [], node_SiblingNots n)
  ∧ (¬ resolved evID n → node_truth (resetNode evID n) = truthUnknown)
  ∧ (∀ fuel' b child' evID' h' inds nots,
       setTruth fuel' b child' evID' h = Ok (h', inds, nots) →
       ∃ n', nodes h' !! a = Some n'
             ∧ node_Operator n' = node_Operator n
             ∧ (node_truth n = truthUnknown → node_truth n' = truthUnknown)).
Proof.
  intros Hn H1 H2 H3 H4 Hc Hk. split; [|split].
  - cbn [setTruth]. rewrite Hn, Hc. simpl.
    rewrite decide_False by done.
    destruct (deref_storeNode_is_Some h a n (resetNode evID n) child Hn)
      as [c1 Hc1]; [eauto|].
    rewrite (evalOperator_unrecognised _ a child (resetNode evID n) c1);
      rewrite ?resetNode_Operator; try done; [|apply storeNode_lookup].
    simpl. by case_decide.
  - by intros ?%unresolved_reset.
  - intros fuel' b child' evID' h' inds nots H.
    apply setTruth_heapStep in H.
    destruct (heapStep_lookup _ _ _ _ _ H Hn) as (n' & Hn' & Hst & _ & _ & Ht).
    exists n'. split; [done|].
    split; [by destruct Hst as (_ & _ & _ & -> & _)|].
    intros Hu. destruct Ht as [->|[->|Hset]]; try done.
    destruct (node_truth n'); simpl in Hset; [done|tauto..].
Qed.

Lemma unrecognised_operator_touch_witness :
  Fire 0 1 Graphs.xor
  = Ok (storeNode 0
          (resetNode 1 (Graphs.operator "XOR" (Some 0%nat) [] [1]%nat [7]))
          Graphs.xor,
        [], [7]).
Proof.
  apply (unrecognised_operator_touch (size (nodes Graphs.xor)) 0 ref_trueNode 1
           Graphs.xor (Graphs.operator "XOR" (Some 0%nat) [] [1]%nat [7])
           trueNode); try reflexivity; discriminate.
Defined.

(** C2 — OR nodes.  An OR node touched while not yet resolved for the event
    becomes true on an incoming true and then carries its own pattern or,
    having none, the pattern of the triggering child; on an incoming false
    it stays unknown and the call does nothing else.  No call at all turns
    the truth of an OR node into false. *)
Theorem OR_node_resolution
    (fuel : nat) (a : addr) (child : nodeRef) (evID : Z) (h : Heap)
    (n c : IndicatorNode) :
  nodes h !! a = Some n → node_Operator n = "OR" → ¬ resolved evID n →
  deref h child = Some c → child ≠ ref_node a →
  (wf h → (size (unresolvedSet evID h) < fuel)%nat →
   ∃ r, setTruth fuel a child evID h = Ok r)
  ∧ (∀ h' inds nots,
       setTruth fuel a child evID h = Ok (h', inds, nots) →
       ∃ n', nodes h' !! a = Some n'
         ∧ (node_truth c = truthTrue →
            node_truth n' = truthTrue
            ∧ node_Pattern n' =
                match node_Pattern (resetNode evID n) with
                | None => node_Pattern c
                | Some own => Some own
                end)
         ∧ (node_truth c = truthFalse →
            node_truth n' = truthUnknown ∧ inds = []
            ∧ h' = storeNode a (resetNode evID n) h))
  ∧ (∀ fuel' b child' evID' h' inds nots,
       setTruth fuel' b child' evID' h = Ok (h', inds, nots) →
       ∃ n', nodes h' !! a = Some n'
             ∧ (node_truth n ≠ truthFalse → node_truth n' ≠ truthFalse)).
Proof.
  intros Hn Hop Hnr Hc Hne. split; [|split].
  - intros Hwf Hlt. apply setTruth_Ok; eauto.
  - intros h' inds nots H.
    destruct (decide (node_truth c = truthUnknown)) as [Hu|Hk].
    { destruct fuel as [|fuel]; [discriminate|].
      apply setTruth_inv in H as (n0 & c0 & Hn0 & Hc0 & [[_ Hr]|[Hk _]]).
      - injection Hr as -> -> ->. exists n. split; [done|]. split; congruence.
      - congruence. }
    destruct (setTruth_touch evID _ _ _ _ _ _ _ _ _ H Hn Hc Hk Hnr)
      as (t & h2 & n2 & He & Hn2 & Htr & Hev & Hfin & Hunk & _).
    rewrite (evalOperator_OR _ a child (resetNode evID n) c) in He;
      [|apply storeNode_lookup|by rewrite deref_storeNode
       |by rewrite resetNode_Operator].
    exists (set_truth t n2). split; [done|]. split.
    + intros Ht. rewrite decide_True in He by done.
      injection He as <- <-. split; [done|]. simpl.
      destruct (node_Pattern (resetNode evID n)) as [own|] eqn:Hp.
      * rewrite decide_False in Hn2 by done.
        rewrite storeNode_lookup in Hn2. injection Hn2 as <-. done.
      * rewrite decide_True in Hn2 by done.
        rewrite storeNode_lookup in Hn2. injection Hn2 as <-. done.
    + intros Ht. rewrite decide_False in He by congruence.
      injection He as <- <-. destruct (Hunk eq_refl) as (-> & -> & _). done.
  - intros fuel' b child' evID' h' inds nots H.
    apply setTruth_heapStep in H.
    destruct (heapStep_lookup _ _ _ _ _ H Hn) as (n' & Hn' & _ & _ & _ & Ht).
    exists n'. split; [done|]. intros Hf.
    destruct Ht as [->|[->|Hset]]; try done.
    rewrite Hop in Hset. destruct (node_truth n'); simpl in Hset; try done.
    intuition discriminate.
Qed.

Lemma OR_node_resolution_witness :
  ∃ h' inds nots n',
    Fire 1 1 Graphs.tor = Ok (h', inds, nots)
    ∧ nodes h' !! 1%nat = Some n' ∧ node_truth n' = truthTrue.
Proof.
  destruct (OR_node_resolution (fuelFor Graphs.tor) 1 ref_trueNode 1
              Graphs.tor (Graphs.operator "OR" None [0]%nat [2; 3]%nat [6])
              trueNode)
    as (Hret & Hprop & _).
  - reflexivity.
  - reflexivity.
  - intros [He _]. discriminate He.
  - reflexivity.
  - discriminate.
  - destruct (Hret tor_wf (unresolvedSet_size 1 Graphs.tor))
      as [[[h' inds] nots] Hr].
    destruct (Hprop h' inds nots Hr) as (n' & Hn' & Ht & _).
    exists h', inds, nots, n'. split; [exact Hr|]. split; [exact Hn'|].
    apply Ht. reflexivity.
Defined.

(** C1 — AND nodes.  An AND node touched while not yet resolved for the
    event becomes false on an incoming false whatever its children are; on
    an incoming true it becomes true exactly when every child is true for
    the event, then carrying its own pattern or, having none, the pattern of
    its first child, and it is left unknown otherwise. *)
Theorem AND_node_resolution
    (fuel : nat) (a : addr) (child : nodeRef) (evID : Z) (h : Heap)
    (n c : IndicatorNode) :
  nodes h !! a = Some n → node_Operator n = "AND" → ¬ resolved evID n →
  deref h child = Some c → child ≠ ref_node a →
  node_truth c ≠ truthUnknown →
  (wf h → (size (unresolvedSet evID h) < fuel)%nat →
   ∃ r, setTruth fuel a child evID h = Ok r)
  ∧ (∀ h' inds nots,
       setTruth fuel a child evID h = Ok (h', inds, nots) →
       ∃ n', nodes h' !! a = Some n' ∧ node_eventID n' = evID
         ∧ (node_truth c = truthFalse → node_truth n' = truthFalse)
         ∧ (node_truth c = truthTrue →
            (node_truth n' = truthTrue
             ↔ Forall (childTrue h evID) (node_Children n))
            ∧ (node_truth n' ≠ truthTrue → node_truth n' = truthUnknown)
            ∧ (node_truth n' = truthTrue →
               match node_Pattern (resetNode evID n) with
               | Some own => node_Pattern n' = Some own
               | None =>
                   ∃ c0 first, head (node_Children n) = Some c0
                               ∧ nodes h !! c0 = Some first
                               ∧ node_Pattern n' = node_Pattern first
               end))).
Proof.
  intros Hn Hop Hnr Hc Hne Hk. split.
  { intros Hwf Hlt. apply setTruth_Ok; eauto. }
  intros h' inds nots H.
  destruct (setTruth_touch evID _ _ _ _ _ _ _ _ _ H Hn Hc Hk Hnr)
    as (t & h2 & n2 & He & Hn2 & Htr & Hev & Hfin & _).
  set (h1 := storeNode a (resetNode evID n) h) in *.
  assert (nodes h1 !! a = Some (resetNode evID n)) as Hn1
    by apply storeNode_lookup.
  assert (deref h1 child = Some c) as Hc1 by (by unfold h1; rewrite deref_storeNode).
  assert (node_Operator (resetNode evID n) = "AND") as Hop1
    by (by rewrite resetNode_Operator).
  exists (set_truth t n2). split; [done|]. split; [done|]. simpl. split.
  - intros Hf. rewrite (evalOperator_AND_False _ _ _ _ _ Hn1 Hc1 Hop1 Hf) in He.
    by injection He as <- <-.
  - intros Ht.
    destruct (evalOperator_AND_True _ _ _ _ _ _ _ Hn1 Hc1 Hop1 Ht He)
      as (Hch & _ & Hown & Hadopt).
    rewrite resetNode_eventID, resetNode_Children in Hch.
    assert (∀ c0, childTrue h1 evID c0 ↔ childTrue h evID c0) as Hsame.
    { intros c0. apply (childTrue_storeNode evID h a n); [done..|].
      intros [_ Hr]. apply Hr. by apply unresolved_reset. }
    assert (t = truthTrue ↔ Forall (childTrue h evID) (node_Children n)) as Hiff.
    { rewrite <- (Forall_iff _ _ _ Hsame), <- childrenTrue_True.
      split; [by intros ->|congruence]. }
    split; [done|]. split.
    { intros Hnt. by destruct (childrenTrue_cases _ _ _ _ Hch). }
    intros ->. destruct (node_Pattern (resetNode evID n)) as [own|] eqn:Hp.
    + rewrite Hown in Hn2 by done. rewrite Hn1 in Hn2. injection Hn2 as <-. done.
    + destruct (Hadopt eq_refl eq_refl) as (c0 & first & Hhd & Hfirst & ->).
      rewrite resetNode_Children in Hhd.
      rewrite storeNode_lookup in Hn2. injection Hn2 as <-. simpl.
      exists c0, first. split; [done|]. split; [|done].
      pose proof (proj1 Hiff eq_refl) as Hall.
      destruct (node_Children n) as [|x l]; [discriminate|].
      simpl in Hhd. injection Hhd as ->.
      apply Forall_cons in Hall as [(ch & Hch0 & He0 & Ht0) _].
      destruct (decide (a = c0)) as [->|Hac].
      * exfalso. rewrite Hn in Hch0. injection Hch0 as <-.
        apply Hnr. split; congruence.
      * unfold h1 in Hfirst. by rewrite storeNode_lookup_ne in Hfirst.
Qed.

Lemma AND_node_resolution_witness :
  ∃ h' inds nots n',
    Fire 2 1 Graphs.tor = Ok (h', inds, nots)
    ∧ nodes h' !! 2%nat = Some n'
    ∧ (node_truth n' = truthTrue
       ↔ Forall (childTrue Graphs.tor 1) [4; 7]%nat).
Proof.
  destruct (AND_node_resolution (fuelFor Graphs.tor) 2 ref_trueNode 1
              Graphs.tor (Graphs.operator "AND" None [1]%nat [4; 7]%nat [])
              trueNode)
    as (Hret & Hprop).
  - reflexivity.
  - reflexivity.
  - intros [He _]. discriminate He.
  - reflexivity.
  - discriminate.
  - discriminate.
  - destruct (Hret tor_wf (unresolvedSet_size 1 Graphs.tor))
      as [[[h' inds] nots] Hr].
    destruct (Hprop h' inds nots Hr) as (n' & Hn' & _ & _ & Ht).
    exists h', inds, nots, n'. split; [exact Hr|]. split; [exact Hn'|].
    apply Ht. reflexivity.
Defined.

(** ** The lazy reset *)

Lemma resetNode_set_truth evID n t :
  node_eventID n ≠ evID → resetNode evID (set_truth t n) = resetNode evID n.
Proof.
  intros He. unfold resetNode. simpl.
  destruct (decide (node_eventID n ≠ evID)); [|done]. simpl.
  by destruct (decide (node_Operator n ≠ "")).
Qed.

Lemma resetNode_set_Pattern evID n pat :
  node_eventID n ≠ evID → node_Operator n ≠ "" →
  resetNode evID (set_Pattern pat n) = resetNode evID n.
Proof.
  intros He Hop. unfold resetNode. simpl.
  destruct (decide (node_eventID n ≠ evID)); [|done]. simpl.
  by destruct (decide (node_Operator n ≠ "")).
Qed.

Lemma resetNode_Pattern evID n :
  node_eventID n ≠ evID →
  node_Pattern (resetNode evID n)
  = if decide (node_Operator n = "") then node_Pattern n else None.
Proof.
  intros He. unfold resetNode. rewrite decide_True by done. simpl.
  by repeat case_decide.
Qed.

(** A call with a known child truth on a heap in which the receiver was
    replaced by [m] runs as on the original heap whenever the reset maps
    [m] and the original receiver to the same node. *)
Lemma setTruth_reset_equiv fuel a child evID h n m c :
  nodes h !! a = Some n → deref h child = Some c →
  node_truth c ≠ truthUnknown →
  (child = ref_node a → node_truth m ≠ truthUnknown) →
  resetNode evID m = resetNode evID n →
  node_SiblingNots m = node_SiblingNots n →
  setTruth fuel a child evID (storeNode a m h) = setTruth fuel a child evID h.
Proof.
  intros Hn Hc Hk Hself Hreset Hnots. destruct fuel as [|fuel]; [done|].
  cbn [setTruth]. rewrite storeNode_lookup, Hn, Hc. simpl.
  assert (∃ c', deref (storeNode a m h) child = Some c'
                ∧ node_truth c' ≠ truthUnknown) as (c' & -> & Hk').
  { destruct (decide (child = ref_node a)) as [->|Hne].
    - exists m. simpl. rewrite lookup_insert_eq. auto.
    - exists c. by rewrite deref_storeNode. }
  simpl. rewrite (decide_False (P := node_truth c' = truthUnknown)) by done.
  rewrite (decide_False (P := node_truth c = truthUnknown)) by done.
  by rewrite storeNode_storeNode, Hreset, Hnots.
Qed.

(** C5 — Lazy per-event reset.  A touch for event [evID] on a node whose
    stored generation differs from [evID] returns, and it does so as follows:
    the reset leaves the node with unknown truth in the new generation; the
    operator switch runs on the graph in which this reset node is stored; and
    the receiver ends in the new generation with the truth the switch chose,
    which for a leaf is the incoming truth.  The result is the one obtained
    from the graph in which the reset had already been applied, and from the
    graph in which the stale truth is replaced by any other truth: the node
    behaves as if its truth had been unknown. *)
Theorem lazy_reset_first
    (fuel : nat) (a : addr) (child : nodeRef) (evID : Z) (h : Heap)
    (n c : IndicatorNode) :
  wf h → (size (unresolvedSet evID h) < fuel)%nat →
  nodes h !! a = Some n → node_eventID n ≠ evID →
  deref h child = Some c → child ≠ ref_node a →
  node_truth c ≠ truthUnknown →
  ∃ t h2 n2 h' inds nots,
    node_truth (resetNode evID n) = truthUnknown
    ∧ node_eventID (resetNode evID n) = evID
    ∧ evalOperator (storeNode a (resetNode evID n) h) a child = Ok (t, h2)
    ∧ nodes h2 !! a = Some n2 ∧ node_eventID n2 = evID
    ∧ setTruth fuel a child evID h = Ok (h', inds, nots)
    ∧ nodes h' !! a = Some (set_truth t n2)
    ∧ (node_Operator n = "" → t = node_truth c)
    ∧ setTruth fuel a child evID (storeNode a (resetNode evID n) h)
      = Ok (h', inds, nots)
    ∧ (∀ t0, setTruth fuel a child evID (storeNode a (set_truth t0 n) h)
             = Ok (h', inds, nots)).
Proof.
  intros Hwf Hlt Hn He Hc Hne Hk.
  assert (¬ resolved evID n) as Hnr by (by intros [? _]).
  destruct (setTruth_Ok evID fuel a child h Hwf) as [[[h' inds] nots] H];
    [by eexists|by eexists|done|].
  destruct (setTruth_touch evID _ _ _ _ _ _ _ _ _ H Hn Hc Hk Hnr)
    as (t & h2 & n2 & Hev & Hn2 & _ & Hgen & Hfin & _).
  exists t, h2, n2, h', inds, nots.
  split; [by apply unresolved_reset|]. split; [apply resetNode_eventID|].
  do 5 (split; [done|]). split; [|split].
  - intros Hop. unfold evalOperator in Hev.
    rewrite storeNode_lookup, deref_storeNode, Hc in Hev by done.
    simpl in Hev. rewrite resetNode_Operator, Hop in Hev.
    rewrite decide_False in Hev by (by intros ?). by injection Hev as <- _.
  - rewrite <- H. apply (setTruth_reset_equiv _ _ _ _ _ n _ c); try done.
    + apply resetNode_idem.
    + apply resetNode_SiblingNots.
  - intros t0. rewrite <- H.
    apply (setTruth_reset_equiv _ _ _ _ _ n _ c); try done.
    by apply resetNode_set_truth.
Qed.

Lemma lazy_reset_first_witness :
  ∃ h1 n h' n',
    ResolveNot 9 1 Graphs.tor = Ok (h1, [], [])
    ∧ nodes h1 !! 9%nat = Some n
    ∧ node_truth n = truthFalse ∧ node_eventID n = 1
    ∧ Fire 9 2 h1 = Ok (h', [], [])
    ∧ nodes h' !! 9%nat = Some n'
    ∧ node_truth n' = truthTrue ∧ node_eventID n' = 2
    ∧ Fire 9 2 (storeNode 9 (set_truth truthUnknown n) h1) = Ok (h', [], []).
Proof.
  pose (n := set_truth truthFalse
               (set_eventID 1 (Graphs.leaf "country" "GB" [6]%nat))).
  pose (h1 := storeNode 0
                (set_eventID 1 (Graphs.operator "AND" (Some 0%nat) []
                                  [1; 6]%nat []))
                (storeNode 6
                   (set_truth truthTrue
                      (set_eventID 1 (Graphs.operator "NOT" None [0]%nat
                                        [9]%nat [])))
                   (storeNode 9 n Graphs.tor))).
  assert (ResolveNot 9 1 Graphs.tor = Ok (h1, [], [])) as H1
    by (vm_compute; reflexivity).
  destruct (lazy_reset_first (fuelFor h1) 9 ref_trueNode 2 h1 n trueNode)
    as (t & h2 & n2 & h' & inds & nots & _ & _ & _ & _ & Hgen & H & Hfin
        & Hleaf & _ & Hany).
  - apply (bool_decide_unpack _). by vm_compute.
  - vm_compute. lia.
  - reflexivity.
  - discriminate.
  - reflexivity.
  - discriminate.
  - discriminate.
  - assert (∃ r, Fire 9 2 h1 = Ok (r, [], [])) as [r Hr]
      by (eexists; vm_compute; reflexivity).
    unfold Fire in Hr. rewrite H in Hr. injection Hr as -> -> ->.
    exists h1, n, r, (set_truth t n2).
    split; [exact H1|]. split; [reflexivity|]. split; [reflexivity|].
    split; [reflexivity|]. split; [exact H|]. split; [exact Hfin|].
    split; [exact (Hleaf eq_refl)|]. split; [exact Hgen|].
    exact (Hany truthUnknown).
Defined.

(** ** Repeated touches *)

(** Every touch with a known child truth reports the receiver's sibling
    negations first. *)
Lemma setTruth_nots_prefix fuel a child evID h h' inds nots n c :
  setTruth fuel a child evID h = Ok (h', inds, nots) →
  nodes h !! a = Some n → deref h child = Some c →
  node_truth c ≠ truthUnknown →
  ∃ rest, nots = node_SiblingNots n ++ rest.
Proof.
  intros H Hn Hc Hk. destruct fuel as [|fuel]; [discriminate|].
  apply setTruth_inv in H as (n0 & c0 & Hn0 & Hc0 & Hcases).
  assert (n0 = n) as -> by congruence. assert (c0 = c) as -> by congruence.
  destruct Hcases as [[? _]|[_ Hcases]]; [done|].
  destruct Hcases as [[_ Hr]|(Hu & t & h2 & He & [[_ Hr]|Hres])].
  - injection Hr as -> -> ->. exists []. by rewrite app_nil_r.
  - injection Hr as -> -> ->. exists []. by rewrite app_nil_r.
  - destruct Hres as (_ & n2 & h4 & i0 & _ & _ & Hl).
    apply (parentsLoop_inv evID _ (λ p, setTruth_inv_step evID fuel p (ref_node a)))
      in Hl as (_ & i1 & d1 & _ & -> & _).
    eauto.
Qed.

(** Repeating a call whose child is one of the two sentinels changes
    nothing, reports no indicator, and reports the sibling negations. *)
Lemma setTruth_again fuel fuel2 a child evID h h1 inds nots n :
  child = ref_trueNode ∨ child = ref_falseNode →
  setTruth fuel a child evID h = Ok (h1, inds, nots) →
  nodes h !! a = Some n →
  setTruth (S fuel2) a child evID h1 = Ok (h1, [], node_SiblingNots n).
Proof.
  intros Hchild H Hn.
  assert (∃ c, (∀ h0, deref h0 child = Some c) ∧ node_truth c ≠ truthUnknown)
    as (c & Hc & Hk).
  { destruct Hchild as [->| ->]; [exists trueNode|exists falseNode]; by split. }
  destruct fuel as [|fuel]; [discriminate|].
  apply setTruth_inv in H as (n0 & c0 & Hn0 & Hc0 & Hcases).
  assert (n0 = n) as -> by congruence.
  assert (c0 = c) as -> by (specialize (Hc h); congruence).
  destruct Hcases as [[? _]|[_ Hcases]]; [done|].
  assert (nodes (storeNode a (resetNode evID n) h) !! a = Some (resetNode evID n)) as Hnr
    by apply storeNode_lookup.
  assert (storeNode a (resetNode evID (resetNode evID n))
            (storeNode a (resetNode evID n) h)
          = storeNode a (resetNode evID n) h) as Hidem.
  { rewrite resetNode_idem. by apply storeNode_same. }
  destruct Hcases as [[Hres Hr]|(Hu & t & h2 & He & [[-> Hr]|Hres])].
  - injection Hr as -> -> ->. cbn [setTruth].
    rewrite Hnr, Hc. simpl. rewrite decide_False by done.
    rewrite Hidem, resetNode_idem, decide_False by done.
    by rewrite resetNode_SiblingNots.
  - injection Hr as -> -> ->.
    pose proof He as He'.
    apply evalOperator_inv in He' as (n' & pat & Hn' & Hh2 & _ & Hpat & _).
    assert (n' = resetNode evID n) as -> by congruence.
    rewrite (Hpat eq_refl), set_Pattern_same in Hh2.
    rewrite (storeNode_same a _ _ Hnr) in Hh2. subst h2.
    cbn [setTruth]. rewrite Hnr, Hc. simpl. rewrite decide_False by done.
    rewrite Hidem, resetNode_idem, decide_True by done.
    rewrite He. simpl. by rewrite resetNode_SiblingNots.
  - destruct Hres as (Ht & n2 & h4 & i0 & Hn2 & Hem & Hl).
    destruct (resolve_step evID _ _ _ _ _ _ _ _ _ Hn Hu He Ht Hn2 Hem)
      as (_ & Hn4 & Hr4 & Hst & _).
    apply (parentsLoop_inv evID _ (λ p, setTruth_inv_step evID fuel p (ref_node a)))
      in Hl as (S5 & _).
    pose proof (heapStep_resolved evID h4 h1 a _ S5 Hn4 Hr4) as Hfin.
    cbn [setTruth]. rewrite Hfin, Hc. simpl. rewrite decide_False by done.
    rewrite (resetNode_resolved evID _ Hr4).
    rewrite (storeNode_same a _ h1 Hfin).
    rewrite decide_False by (by destruct Hr4).
    simpl. destruct Hst as ((_ & _ & _ & _ & _ & _ & _ & -> & _) & _).
    by rewrite resetNode_SiblingNots.
Qed.

(** ** Runs of calls for one event *)

Lemma runCall_inv_step evID c h h' inds nots :
  runCall evID c h = Ok (h', inds, nots) →
  heapStep evID h h' ∧ emission evID h h' inds.
Proof. destruct c; apply setTruth_inv_step. Qed.

Lemma runCalls_inv_step evID calls :
  ∀ h h' inds nots,
    runCalls evID calls h = Ok (h', inds, nots) →
    heapStep evID h h' ∧ emission evID h h' inds.
Proof.
  induction calls as [|c calls IH]; simpl; intros h h' inds nots H.
  - injection H as <- <- <-. split; [apply heapStep_refl|apply emission_nil].
  - apply bind_Ok in H as ([[h1 i1] d1] & H1 & H).
    apply bind_Ok in H as ([[h2 i2] d2] & H2 & H).
    injection H as <- <- <-.
    destruct (runCall_inv_step _ _ _ _ _ _ H1) as [S1 E1].
    destruct (IH _ _ _ _ H2) as [S2 E2].
    split; [by eapply heapStep_trans|by eapply emission_trans].
Qed.

Lemma runCall_node evID c h r :
  runCall evID c h = Ok r → is_Some (nodes h !! callNode c).
Proof.
  destruct c; unfold runCall, Fire, ResolveNot, fuelFor; intros H;
    apply setTruth_inv in H as (n & _ & Hn & _); eauto.
Qed.

Lemma runCall_nots_prefix evID c h h' inds nots n :
  runCall evID c h = Ok (h', inds, nots) →
  nodes h !! callNode c = Some n →
  ∃ rest, nots = node_SiblingNots n ++ rest.
Proof.
  destruct c; simpl; intros H Hn.
  - by apply (setTruth_nots_prefix _ _ _ _ _ _ _ _ n trueNode H).
  - by apply (setTruth_nots_prefix _ _ _ _ _ _ _ _ n falseNode H).
Qed.

Lemma runCall_again evID c h h1 inds nots n :
  runCall evID c h = Ok (h1, inds, nots) →
  nodes h !! callNode c = Some n →
  runCall evID c h1 = Ok (h1, [], node_SiblingNots n).
Proof.
  destruct c; unfold runCall, callNode, Fire, ResolveNot, fuelFor; intros H Hn.
  - by apply (setTruth_again _ _ _ _ _ _ _ _ _ n (or_introl eq_refl) H).
  - by apply (setTruth_again _ _ _ _ _ _ _ _ _ n (or_intror eq_refl) H).
Qed.

(** C6 — Sibling negations are reported per touch.  A returning [Fire] or
    [ResolveNot] on a node reports that node's [SiblingNots] first, whether
    or not the node's truth changes.  The same call made again right away
    leaves the heap as it is, reports no indicator, and still reports the
    [SiblingNots]; made again after any further calls for the event, it
    still reports them. *)
Theorem siblingNots_touch_based
    (c : apiCall) (evID : Z) (h h1 : Heap) (inds : list iaddr) (nots : list Z) :
  runCall evID c h = Ok (h1, inds, nots) →
  ∃ n, nodes h !! callNode c = Some n
       ∧ (∃ rest, nots = node_SiblingNots n ++ rest)
       ∧ runCall evID c h1 = Ok (h1, [], node_SiblingNots n)
       ∧ (∀ calls h2 inds2 nots2 h3 inds3 nots3,
            runCalls evID calls h1 = Ok (h2, inds2, nots2) →
            runCall evID c h2 = Ok (h3, inds3, nots3) →
            ∃ rest, nots3 = node_SiblingNots n ++ rest).
Proof.
  intros H. destruct (runCall_node _ _ _ _ H) as [n Hn].
  exists n. split; [done|]. split; [by eapply runCall_nots_prefix|].
  split; [by eapply runCall_again|].
  intros calls h2 inds2 nots2 h3 inds3 nots3 Hrun Hc.
  destruct (runCall_inv_step _ _ _ _ _ _ H) as [S1 _].
  destruct (runCalls_inv_step _ _ _ _ _ _ Hrun) as [S2 _].
  destruct (heapStep_lookup evID h h2 _ n (heapStep_trans _ _ _ _ S1 S2) Hn)
    as (n2 & Hn2 & (_ & _ & _ & _ & _ & _ & _ & Hnots & _) & _).
  destruct (runCall_nots_prefix _ _ _ _ _ _ _ Hc Hn2) as [rest ->].
  exists rest. by rewrite Hnots.
Qed.

Lemma siblingNots_touch_based_witness :
  ∃ h1 inds nots,
    Fire 1 1 Graphs.tor = Ok (h1, inds, nots)
    ∧ Fire 1 1 h1 = Ok (h1, [], [6]).
Proof.
  destruct (Fire_Ok 1 1 Graphs.tor tor_wf) as [[[h1 inds] nots] Hr].
  - by eexists.
  - exists h1, inds, nots. split; [exact Hr|].
    destruct (siblingNots_touch_based (callFire 1) 1 Graphs.tor h1 inds nots Hr)
      as (n & Hn & _ & Hagain & _).
    injection Hn as <-. exact Hagain.
Defined.

(** An indicator carried by one node only is reported at most once, and not
    at all when that node was resolved beforehand. *)
Lemma emission_unshared evID h h' inds b n p :
  heapStep evID h h' → emission evID h h' inds →
  nodes h !! b = Some n →
  (∀ b' nb, nodes h !! b' = Some nb → node_Indicator nb = Some p → b' = b) →
  (resolved evID n → p ∉ inds)
  ∧ (∀ k1 k2, inds !! k1 = Some p → inds !! k2 = Some p → k1 = k2).
Proof.
  intros Hs (L & Hnd & HF) Hn Huniq.
  assert (∀ k, inds !! k = Some p →
               L !! k = Some b ∧ b ∈ unresolvedSet evID h) as Hemit.
  { intros k Hk.
    destruct (Forall2_lookup_r _ _ _ _ _ HF Hk) as (b' & Hb' & Hu & n' & Hn' & _ & _ & Hi).
    destruct (heapStep_lookup_inv _ _ _ _ _ Hs Hn') as (nb & Hnb & Hst & _).
    assert (b' = b) as ->; [|done].
    apply (Huniq b' nb Hnb).
    by destruct Hst as (_ & _ & _ & _ & <- & _). }
  split.
  - intros Hr [k Hk]%list_elem_of_lookup.
    destruct (Hemit k Hk) as [_ Hu].
    apply elem_of_unresolvedSet in Hu as (n0 & Hn0 & Hnr). congruence.
  - intros k1 k2 H1 H2.
    destruct (Hemit k1 H1) as [L1 _]. destruct (Hemit k2 H2) as [L2 _].
    by eapply NoDup_lookup.
Qed.

(** C4 — Monotonic resolution and at-most-once emission.  Over any run of
    [Fire] and [ResolveNot] calls for one event, a node that was resolved
    for the event keeps its whole state (so its truth is not changed and its
    operator is not evaluated again); the indicators returned come from
    pairwise distinct nodes, each unresolved before the run and resolved true
    by it; so the indicator of a node, when no other node points to it,
    occurs at most once among all the indicators returned, and not at all
    when the node was resolved before the run. *)
Theorem monotonic_resolution
    (evID : Z) (calls : list apiCall) (h h' : Heap)
    (inds : list iaddr) (nots : list Z) (b : addr) (n : IndicatorNode) :
  runCalls evID calls h = Ok (h', inds, nots) →
  nodes h !! b = Some n →
  (resolved evID n → nodes h' !! b = Some n)
  ∧ emission evID h h' inds
  ∧ (∀ p,
       node_Indicator n = Some p →
       (∀ b' nb, nodes h !! b' = Some nb → node_Indicator nb = Some p →
                 b' = b) →
       (resolved evID n → p ∉ inds)
       ∧ (∀ k1 k2, inds !! k1 = Some p → inds !! k2 = Some p → k1 = k2)).
Proof.
  intros H Hn. apply runCalls_inv_step in H as [Hs He]. split; [|split].
  - intros Hr. by apply (heapStep_resolved evID h h').
  - done.
  - intros p _ Huniq. by apply (emission_unshared evID h h' inds b n p).
Qed.

Lemma tor_indicator_unshared :
  ∀ b nb, nodes Graphs.tor !! b = Some nb →
          node_Indicator nb = Some 0%nat → b = 0%nat.
Proof.
  assert (map_Forall (λ b nb, node_Indicator nb = Some 0%nat → b = 0%nat)
            (nodes Graphs.tor)) as H.
  { apply (bool_decide_unpack _). by vm_compute. }
  exact H.
Qed.

Lemma monotonic_resolution_witness :
  ∃ h' inds nots,
    runCalls 1 [callFire 4; callFire 7; callResolveNot 6;
                callFire 4; callResolveNot 6] Graphs.tor
    = Ok (h', inds, nots)
    ∧ inds = [0%nat]
    ∧ (∀ k1 k2, inds !! k1 = Some 0%nat → inds !! k2 = Some 0%nat → k1 = k2).
Proof.
  eexists _, _, _. split; [vm_compute; reflexivity|]. split; [reflexivity|].
  eapply (monotonic_resolution 1
            [callFire 4; callFire 7; callResolveNot 6;
             callFire 4; callResolveNot 6]
            Graphs.tor _ _ _ 0
            (Graphs.operator "AND" (Some 0%nat) [] [1; 6]%nat [])).
  - vm_compute. reflexivity.
  - reflexivity.
  - reflexivity.
  - exact tor_indicator_unshared.
Defined.

(** The two scenarios of the bundled graph: with the [src] leaf and its
    companion fired and the negation resolved, the root reports the indicator
    with the pattern's value and the type stripped of its prefix; when the
    negated leaf fires, the root is false and nothing is reported. *)
Lemma tor_scenario_fires :
  ∃ h' i',
    runCalls 1 [callFire 4; callFire 7; callResolveNot 6] Graphs.tor
    = Ok (h', [0%nat], [6])
    ∧ truthFor 1 <$> nodes h' !! 0%nat = Some truthTrue
    ∧ indicators h' !! 0%nat = Some i'
    ∧ ind_Type i' = "ipv4" ∧ ind_Value i' = "103.199.16.66".
Proof. eexists _, _. vm_compute. by repeat split. Qed.

Lemma tor_scenario_negated :
  ∃ h',
    runCalls 1 [callFire 9; callFire 4; callFire 7] Graphs.tor
    = Ok (h', [], [6])
    ∧ truthFor 1 <$> nodes h' !! 6%nat = Some truthFalse
    ∧ truthFor 1 <$> nodes h' !! 0%nat = Some truthFalse.
Proof. eexists. vm_compute. by repeat split. Qed.

(** ** Indicator payloads *)

Lemma parentsLoop_rel (R : Heap → Heap → Prop)
    (call : addr → Heap → outcome (Heap * list iaddr * list Z)) :
  (∀ h, R h h) → (∀ h1 h2 h3, R h1 h2 → R h2 h3 → R h1 h3) →
  (∀ p h h' i d, call p h = Ok (h', i, d) → R h h') →
  ∀ ps h i0 d0 h' i d,
    parentsLoop call ps h i0 d0 = Ok (h', i, d) → R h h'.
Proof.
  intros Hrefl Htrans Hcall ps.
  induction ps as [|p ps IH]; simpl; intros h i0 d0 h' i d H.
  - injection H as <- _ _. apply Hrefl.
  - apply bind_Ok in H as ([[hp ip] dp] & Hp & H).
    eapply Htrans; [by eapply Hcall|by eapply IH].
Qed.

Lemma indicatorFrame_trans evID h1 h2 h3 :
  heapStep evID h1 h2 →
  indicatorFrame evID h1 h2 → indicatorFrame evID h2 h3 →
  indicatorFrame evID h1 h3.
Proof.
  intros Hs F12 F23 p Hall. rewrite <- (F12 p Hall). apply F23.
  intros b n2 Hn2 Hi.
  destruct (heapStep_lookup_inv _ _ _ _ _ Hs Hn2) as (n1 & Hn1 & Hst & _ & Heq & _).
  assert (resolved evID n1) as Hr.
  { apply (Hall b n1 Hn1). by destruct Hst as (_ & _ & _ & _ & <- & _). }
  by rewrite (Heq Hr).
Qed.

(** Lines 185-208 on a node that is true and carries an indicator. *)
Lemma emitIndicator_spec h a n p i :
  nodes h !! a = Some n → node_truth n = truthTrue →
  node_Indicator n = Some p → indicators h !! p = Some i →
  emitIndicator h a =
    Ok (match node_Pattern n with
        | Some pat =>
            if node_UseOriginalIndicatorValue n then h
            else
              let parts := Split (pat_Type pat) "." in
              storeIndicator p
                (set_ind_Value (pat_Value pat)
                   (set_ind_Type
                      (if decide (1 < List.length parts)%nat
                       then nth 1 parts "" else nth 0 parts "") i)) h
        | None => h
        end, [p]).
Proof.
  intros Hn Ht Hi Hp. unfold emitIndicator. rewrite Hn. simpl.
  rewrite decide_True by done. rewrite Hi.
  destruct (node_Pattern n) as [pat|];
    [destruct (node_UseOriginalIndicatorValue n)|]; try done.
  - by rewrite Hp.
  - by rewrite Hp.
Qed.

Lemma emitIndicator_other h a h' l n p' :
  emitIndicator h a = Ok (h', l) → nodes h !! a = Some n →
  node_Indicator n ≠ Some p' →
  indicators h' !! p' = indicators h !! p'.
Proof.
  unfold emitIndicator. intros H Hn Hne. rewrite Hn in H. simpl in H.
  case_decide; [|by injection H as <- _].
  destruct (node_Indicator n) as [p|]; [|by injection H as <- _].
  destruct (node_Pattern n) as [pat|].
  - destruct (node_UseOriginalIndicatorValue n); [by injection H as <- _|].
    ok_inv H. subst. simpl. apply lookup_insert_ne. congruence.
  - ok_inv H. by subst.
Qed.

Lemma evalOperator_indicators h a child t h2 :
  evalOperator h a child = Ok (t, h2) → indicators h2 = indicators h.
Proof. intros H. by apply evalOperator_inv in H as (n & pat & _ & -> & _). Qed.

Lemma resolve_frame evID h a child n0 t h2 n2 h4 i0 :
  nodes h !! a = Some n0 →
  node_truth (resetNode evID n0) = truthUnknown →
  evalOperator (storeNode a (resetNode evID n0) h) a child = Ok (t, h2) →
  t ≠ truthUnknown →
  nodes h2 !! a = Some n2 →
  emitIndicator (storeNode a (set_truth t n2) h2) a = Ok (h4, i0) →
  indicatorFrame evID h h4.
Proof.
  intros Hn Hu He Ht Hn2 Hem p Hall.
  destruct (resolve_step evID _ _ _ _ _ _ _ _ _ Hn Hu He Ht Hn2 Hem)
    as (_ & _ & _ & Hst & _).
  rewrite (emitIndicator_other _ _ _ _ (set_truth t n2) p Hem).
  - simpl. by rewrite (evalOperator_indicators _ _ _ _ _ He).
  - apply storeNode_lookup.
  - simpl. intros Hi.
    destruct Hst as ((_ & _ & _ & _ & Hi2 & _) & _).
    destruct (resetNode_step evID n0) as ((_ & _ & _ & _ & Hi1 & _) & _).
    assert (resolved evID n0) as Hr.
    { apply (Hall a n0 Hn). congruence. }
    apply unresolved_reset in Hu. done.
Qed.

Lemma setTruth_indicatorFrame evID fuel :
  ∀ a child h h' i d,
    setTruth fuel a child evID h = Ok (h', i, d) →
    indicatorFrame evID h h'.
Proof.
  induction fuel as [|fuel IH]; intros a child h h' i d H; [discriminate|].
  apply setTruth_inv in H as (n0 & c0 & Hn & Hc & [[_ Hr]|[Hk Hcases]]).
  { injection Hr as -> -> ->. by intros p _. }
  destruct Hcases as [[_ Hr]|(Hu & t & h2 & He & [[-> Hr]|(Ht & n2 & h4 & i0 & Hn2 & Hem & Hl)])].
  - injection Hr as -> -> ->. by intros p _.
  - injection Hr as -> -> ->. intros p _.
    by rewrite (evalOperator_indicators _ _ _ _ _ He).
  - destruct (resolve_step evID _ _ _ _ _ _ _ _ _ Hn Hu He Ht Hn2 Hem)
      as (S4 & _).
    pose proof (resolve_frame evID _ _ _ _ _ _ _ _ _ Hn Hu He Ht Hn2 Hem) as F4.
    apply (parentsLoop_rel
             (λ x y, heapStep evID x y ∧ indicatorFrame evID x y)) in Hl.
    + destruct Hl as [S5 F5]. by eapply indicatorFrame_trans.
    + intros x. split; [apply heapStep_refl|by intros p _].
    + intros x y z [S1 F1] [S2 F2].
      split; [by eapply heapStep_trans|by eapply indicatorFrame_trans].
    + intros p x y i' d' Hcall.
      split; [by eapply setTruth_heapStep|by eapply IH].
Qed.

Lemma parentsLoop_frame evID fuel child ps h i0 d0 h' i d :
  parentsLoop (λ parent, setTruth fuel parent child evID) ps h i0 d0
  = Ok (h', i, d) →
  heapStep evID h h' ∧ indicatorFrame evID h h'.
Proof.
  apply (parentsLoop_rel (λ x y, heapStep evID x y ∧ indicatorFrame evID x y)).
  - intros x. split; [apply heapStep_refl|by intros p _].
  - intros x y z [S1 F1] [S2 F2].
    split; [by eapply heapStep_trans|by eapply indicatorFrame_trans].
  - intros p x y i' d' Hcall.
    split; [by eapply setTruth_heapStep|by eapply setTruth_indicatorFrame].
Qed.

(** C7 — Indicator value substitution.  When a call resolves its receiver
    true and the receiver carries an indicator that no other node points to,
    the indicator is the first one returned.  With a pattern and
    [UseOriginalIndicatorValue] unset, its [Value] is the pattern's value and
    its [Type] is the second part of the pattern's dotted type when there are
    at least two parts and the whole type when there is one; with the flag
    set, or without any pattern, the indicator is returned as it was. *)
Theorem indicator_substitution
    (fuel : nat) (a : addr) (child : nodeRef) (evID : Z) (h h' : Heap)
    (inds : list iaddr) (nots : list Z) (n n' : IndicatorNode)
    (p : iaddr) (i : Indicator) :
  nodes h !! a = Some n → ¬ resolved evID n →
  node_Indicator n = Some p → indicators h !! p = Some i →
  (∀ b nb, nodes h !! b = Some nb → node_Indicator nb = Some p → b = a) →
  setTruth fuel a child evID h = Ok (h', inds, nots) →
  nodes h' !! a = Some n' → resolved evID n' → node_truth n' = truthTrue →
  ∃ rest i',
    inds = p :: rest ∧ indicators h' !! p = Some i' ∧ indicatorStep i i'
    ∧ match node_Pattern n' with
      | Some pat =>
          if node_UseOriginalIndicatorValue n then i' = i
          else
            ind_Value i' = pat_Value pat
            ∧ (let parts := Split (pat_Type pat) "." in
               ((2 ≤ List.length parts)%nat → ind_Type i' = nth 1 parts "")
               ∧ (List.length parts = 1%nat → ind_Type i' = pat_Type pat))
      | None => i' = i
      end.
Proof.
  intros Hn Hnr Hi Hp Huniq H Hn' Hr' Ht'.
  destruct fuel as [|fuel]; [discriminate|].
  apply setTruth_inv in H as (n0 & c0 & Hn0 & Hc & Hcases).
  assert (n0 = n) as -> by congruence.
  destruct Hcases as [[_ Hr]|[Hk Hcases]].
  { injection Hr as -> -> ->. exfalso. apply Hnr. congruence. }
  pose proof (proj1 (unresolved_reset evID n) Hnr) as Hu.
  destruct Hcases as [[Hres _]|(_ & t & h2 & He & Hcases)]; [done|].
  destruct (evalOperator_step evID _ _ _ _ _ _ He (storeNode_lookup _ _ _) Hu)
    as (_ & n2 & Hn2 & _ & Htr & _).
  destruct Hcases as [[-> Hr]|(Ht & n2' & h4 & i0 & Hn2' & Hem & Hl)].
  { injection Hr as -> -> ->. exfalso. congruence. }
  assert (n2' = n2) as -> by congruence.
  destruct (resolve_step evID _ _ _ _ _ _ _ _ _ Hn Hu He Ht Hn2 Hem)
    as (S4 & Hn4 & Hr4 & Hst & _).
  destruct (parentsLoop_frame _ _ _ _ _ _ _ _ _ _ Hl) as [S5 F5].
  apply (parentsLoop_inv evID _ (λ q, setTruth_inv_step evID fuel q (ref_node a)))
    in Hl as (_ & i1 & d1 & -> & -> & _).
  pose proof (heapStep_resolved evID h4 h' a _ S5 Hn4 Hr4) as Hfin.
  assert (n' = set_truth t n2) as -> by congruence.
  simpl in Ht'. subst t.
  assert (node_Indicator n2 = Some p) as Hi2.
  { destruct Hst as ((_ & _ & _ & _ & -> & _) & _).
    destruct (resetNode_step evID n) as ((_ & _ & _ & _ & -> & _) & _). done. }
  assert (node_UseOriginalIndicatorValue n2 = node_UseOriginalIndicatorValue n)
    as Huse.
  { destruct Hst as ((_ & _ & _ & _ & _ & _ & _ & _ & ->) & _).
    by destruct (resetNode_step evID n) as ((_ & _ & _ & _ & _ & _ & _ & _ & ->) & _). }
  rewrite (emitIndicator_spec _ a (set_truth truthTrue n2) p i) in Hem;
    [|apply storeNode_lookup|done|done
     |by simpl; rewrite (evalOperator_indicators _ _ _ _ _ He)].
  injection Hem as Hh4 <-.
  assert (indicators h' !! p = indicators h4 !! p) as Hkeep.
  { apply F5. intros b nb Hnb Hib.
    destruct (heapStep_lookup_inv _ _ _ _ _ S4 Hnb) as (n0 & Hn0' & Hs0 & _).
    assert (b = a) as ->.
    { apply (Huniq b n0 Hn0'). by destruct Hs0 as (_ & _ & _ & _ & <- & _). }
    congruence. }
  exists i1. simpl in *. rewrite Huse in *.
  destruct (node_Pattern n2) as [pat|];
    [destruct (node_UseOriginalIndicatorValue n)|].
  - subst h4. exists i. rewrite Hkeep. simpl.
    rewrite (evalOperator_indicators _ _ _ _ _ He). simpl.
    repeat split; done.
  - subst h4. eexists. rewrite Hkeep. simpl. rewrite lookup_insert_eq.
    split; [done|]. split; [done|]. split; [by repeat split|].
    simpl. split; [done|]. split.
    + intros Hlen. by rewrite decide_True by lia.
    + intros Hlen. rewrite decide_False by lia. by apply Split_head_single.
  - subst h4. exists i. rewrite Hkeep. simpl.
    rewrite (evalOperator_indicators _ _ _ _ _ He). simpl.
    repeat split; done.
Qed.

Lemma indicator_substitution_witness :
  ∃ h' i',
    Fire 0 1 Graphs.beacon = Ok (h', [0%nat], [])
    ∧ indicators h' !! 0%nat = Some i'
    ∧ ind_Value i' = "10.9.8.7" ∧ ind_Type i' = "ipv4".
Proof.
  pose (n := mkNode "" "" "" "" (Some 0%nat) [] [] []
                    (Some (mkPattern "dest.ipv4" "10.9.8.7" "" ""))
                    truthUnknown 0 false).
  pose (n' := set_truth truthTrue (set_eventID 1 n)).
  pose (h' := storeIndicator 0
                (set_ind_Value "10.9.8.7"
                   (set_ind_Type "ipv4" Graphs.torIndicator))
                (storeNode 0 n' Graphs.beacon)).
  assert (Fire 0 1 Graphs.beacon = Ok (h', [0%nat], [])) as Hr
    by (vm_compute; reflexivity).
  destruct (indicator_substitution (fuelFor Graphs.beacon) 0 ref_trueNode 1
              Graphs.beacon h' [0%nat] [] n n' 0 Graphs.torIndicator)
    as (rest & i' & _ & Hi' & _ & Hv & Ht & _).
  - reflexivity.
  - intros [He _]. discriminate He.
  - reflexivity.
  - reflexivity.
  - assert (map_Forall (λ b nb, node_Indicator nb = Some 0%nat → b = 0%nat)
              (nodes Graphs.beacon)) as H.
    { apply (bool_decide_unpack _). by vm_compute. }
    exact H.
  - exact Hr.
  - reflexivity.
  - split; [reflexivity|discriminate].
  - reflexivity.
  - exists h', i'. split; [exact Hr|]. split; [exact Hi'|].
    split; [exact Hv|]. apply Ht. vm_compute. lia.
Defined.




(** ** Patterns across events *)

(** What the emission phase of a call that resolves its receiver true
    worked on. *)
Lemma receiver_emission evID fuel a child h h' inds nots n n' p i :
  nodes h !! a = Some n → ¬ resolved evID n →
  node_Indicator n = Some p → indicators h !! p = Some i →
  (∀ b nb, nodes h !! b = Some nb → node_Indicator nb = Some p → b = a) →
  setTruth fuel a child evID h = Ok (h', inds, nots) →
  nodes h' !! a = Some n' → resolved evID n' → node_truth n' = truthTrue →
  ∃ rest h3 h4,
    inds = p :: rest ∧ nodes h3 !! a = Some n'
    ∧ node_Indicator n' = Some p
    ∧ node_UseOriginalIndicatorValue n' = node_UseOriginalIndicatorValue n
    ∧ indicators h3 !! p = Some i
    ∧ emitIndicator h3 a = Ok (h4, [p])
    ∧ indicators h' !! p = indicators h4 !! p.
Proof.
  intros Hn Hnr Hi Hp Huniq H Hn' Hr' Ht'.
  destruct fuel as [|fuel]; [discriminate|].
  apply setTruth_inv in H as (n0 & c0 & Hn0 & Hc & Hcases).
  assert (n0 = n) as -> by congruence.
  destruct Hcases as [[_ Hr]|[Hk Hcases]].
  { injection Hr as -> -> ->. exfalso. apply Hnr. congruence. }
  pose proof (proj1 (unresolved_reset evID n) Hnr) as Hu.
  destruct Hcases as [[Hres _]|(_ & t & h2 & He & Hcases)]; [done|].
  destruct (evalOperator_step evID _ _ _ _ _ _ He (storeNode_lookup _ _ _) Hu)
    as (_ & n2 & Hn2 & _ & Htr & _).
  destruct Hcases as [[-> Hr]|(Ht & n2' & h4 & i0 & Hn2' & Hem & Hl)].
  { injection Hr as -> -> ->. exfalso. congruence. }
  assert (n2' = n2) as -> by congruence.
  destruct (resolve_step evID _ _ _ _ _ _ _ _ _ Hn Hu He Ht Hn2 Hem)
    as (S4 & Hn4 & Hr4 & Hst & _).
  destruct (parentsLoop_frame _ _ _ _ _ _ _ _ _ _ Hl) as [S5 F5].
  apply (parentsLoop_inv evID _ (λ q, setTruth_inv_step evID fuel q (ref_node a)))
    in Hl as (_ & i1 & d1 & -> & -> & _).
  pose proof (heapStep_resolved evID h4 h' a _ S5 Hn4 Hr4) as Hfin.
  assert (n' = set_truth t n2) as -> by congruence.
  simpl in Ht'. subst t.
  assert (node_Indicator n2 = Some p) as Hi2.
  { destruct Hst as ((_ & _ & _ & _ & -> & _) & _).
    destruct (resetNode_step evID n) as ((_ & _ & _ & _ & -> & _) & _). done. }
  assert (node_UseOriginalIndicatorValue n2 = node_UseOriginalIndicatorValue n)
    as Huse.
  { destruct Hst as ((_ & _ & _ & _ & _ & _ & _ & _ & ->) & _).
    by destruct (resetNode_step evID n) as ((_ & _ & _ & _ & _ & _ & _ & _ & ->) & _). }
  assert (indicators (storeNode a (set_truth truthTrue n2) h2) !! p = Some i)
    as Hp3.
  { simpl. by rewrite (evalOperator_indicators _ _ _ _ _ He). }
  pose proof Hem as Hem'.
  rewrite (emitIndicator_spec _ a (set_truth truthTrue n2) p i) in Hem';
    [|apply storeNode_lookup|done..].
  injection Hem' as _ <-.
  exists i1, (storeNode a (set_truth truthTrue n2) h2), h4.
  split; [done|]. split; [apply storeNode_lookup|]. split; [done|].
  split; [done|]. split; [done|]. split; [done|].
  apply F5. intros b nb Hnb Hib.
  destruct (heapStep_lookup_inv _ _ _ _ _ S4 Hnb) as (nb0 & Hnb0 & Hs0 & _).
  assert (b = a) as ->.
  { apply (Huniq b nb0 Hnb0). by destruct Hs0 as (_ & _ & _ & _ & <- & _). }
  congruence.
Qed.

(** C10 — Reset and patterns.  A touch for a new event on a node with a
    stale generation returns.  When the node has an operator, the reset
    leaves it without a pattern, so the call gives the same result whatever
    pattern the node was left with; the pattern the node ends with is nil or
    one adopted during this call (that of the triggering child for an OR,
    that of the first child for an AND); and when the call rewrites the
    node's indicator, the value it writes is the value of that pattern.
    When the node has no operator, the reset and the call keep its pattern,
    as does every other call. *)
Theorem reset_clears_operator_pattern
    (fuel : nat) (a : addr) (child : nodeRef) (evID : Z) (h : Heap)
    (n c : IndicatorNode) :
  wf h → (size (unresolvedSet evID h) < fuel)%nat →
  nodes h !! a = Some n → node_eventID n ≠ evID →
  deref h child = Some c → child ≠ ref_node a →
  node_truth c ≠ truthUnknown →
  ∃ h' inds nots n',
    setTruth fuel a child evID h = Ok (h', inds, nots)
    ∧ nodes h' !! a = Some n'
    ∧ (node_Operator n ≠ "" →
       node_Pattern (resetNode evID n) = None
       ∧ (∀ pat,
            setTruth fuel a child evID (storeNode a (set_Pattern pat n) h)
            = Ok (h', inds, nots))
       ∧ (node_Pattern n' = None
          ∨ (node_Operator n = "OR" ∧ node_Pattern n' = node_Pattern c)
          ∨ (node_Operator n = "AND"
             ∧ ∃ c0 first, head (node_Children n) = Some c0
                 ∧ nodes h !! c0 = Some first
                 ∧ node_Pattern n' = node_Pattern first))
       ∧ (∀ p i pat',
            node_Indicator n = Some p → indicators h !! p = Some i →
            (∀ b nb, nodes h !! b = Some nb →
                     node_Indicator nb = Some p → b = a) →
            node_UseOriginalIndicatorValue n = false →
            node_truth n' = truthTrue → node_Pattern n' = Some pat' →
            ∃ i', indicators h' !! p = Some i'
                  ∧ ind_Value i' = pat_Value pat'))
    ∧ (node_Operator n = "" →
       node_Pattern (resetNode evID n) = node_Pattern n
       ∧ node_Pattern n' = node_Pattern n
       ∧ ∀ fuel0 b child0 evID0 h0 inds0 nots0,
           setTruth fuel0 b child0 evID0 h = Ok (h0, inds0, nots0) →
           ∃ n0, nodes h0 !! a = Some n0
                 ∧ node_Pattern n0 = node_Pattern n).
Proof.
  intros Hwf Hlt Hn He Hc Hne Hk.
  assert (¬ resolved evID n) as Hnr by (by intros [? _]).
  destruct (setTruth_Ok evID fuel a child h Hwf) as [[[h' inds] nots] H];
    [by eexists|by eexists|done|].
  destruct (setTruth_touch evID _ _ _ _ _ _ _ _ _ H Hn Hc Hk Hnr)
    as (t & h2 & n2 & Hev & Hn2 & _ & Hgen & Hfin & _).
  exists h', inds, nots, (set_truth t n2).
  split; [done|]. split; [done|].
  pose proof (storeNode_lookup a (resetNode evID n) h) as Hr.
  pose proof (deref_storeNode h a (resetNode evID n) child Hne) as Hd.
  rewrite Hc in Hd.
  split.
  - intros Hop.
    assert (node_Pattern (resetNode evID n) = None) as Hnone.
    { rewrite resetNode_Pattern by done. by rewrite decide_False. }
    split; [done|]. split; [|split].
    + intros pat. rewrite <- H.
      apply (setTruth_reset_equiv _ _ _ _ _ n _ c); try done.
      by apply resetNode_set_Pattern.
    + simpl.
      assert (h2 = storeNode a (resetNode evID n) h →
              node_Pattern n2 = None) as Hsame.
      { intros ->. rewrite Hr in Hn2. by injection Hn2 as <-. }
      destruct (decide (node_Operator n = "OR")) as [Hor|Hnor].
      { rewrite (evalOperator_OR _ _ _ _ _ Hr Hd) in Hev
          by (by rewrite resetNode_Operator).
        rewrite (decide_True (P := node_Pattern _ = None)) in Hev by done.
        case_decide; injection Hev as <- <-; [|left; by apply Hsame].
        rewrite storeNode_lookup in Hn2. injection Hn2 as <-.
        right. left. by split. }
      destruct (decide (node_Operator n = "AND")) as [Hand|Hnand].
      { destruct (decide (node_truth c = truthFalse)) as [Hf|Hf].
        { rewrite (evalOperator_AND_False _ _ _ _ _ Hr Hd) in Hev
            by (by rewrite ?resetNode_Operator).
          injection Hev as <- <-. left. by apply Hsame. }
        assert (node_truth c = truthTrue) as Ht by (by destruct (node_truth c)).
        destruct (evalOperator_AND_True _ _ _ _ _ _ _ Hr Hd
                    ltac:(by rewrite resetNode_Operator) Ht Hev)
          as (Hct & Hu & _ & Hadopt).
        apply childrenTrue_cases in Hct as [-> | ->];
          [|left; apply Hsame; by apply Hu].
        destruct (Hadopt eq_refl Hnone) as (c0 & first & Hh & Hf0 & ->).
        rewrite storeNode_lookup in Hn2. injection Hn2 as <-. simpl.
        rewrite resetNode_Children in Hh.
        destruct (decide (c0 = a)) as [->|Hca].
        - rewrite Hr in Hf0. injection Hf0 as <-. by left.
        - rewrite storeNode_lookup_ne in Hf0 by done.
          right. right. split; [done|]. by exists c0, first. }
      destruct (decide (node_Operator n = "NOT")) as [Hnot|Hnnot].
      { rewrite (evalOperator_NOT _ _ _ _ _ Hr Hd) in Hev
          by (by rewrite resetNode_Operator).
        injection Hev as _ <-. left. by apply Hsame. }
      rewrite (evalOperator_unrecognised _ _ _ _ _ Hr Hd) in Hev
        by (by rewrite resetNode_Operator).
      injection Hev as _ <-. left. by apply Hsame.
    + intros p i pat' Hi Hp Huniq Huse Ht Hpat. simpl in Ht. subst t.
      destruct (receiver_emission _ _ _ _ _ _ _ _ _ _ _ _ Hn Hnr Hi Hp Huniq
                  H Hfin ltac:(by split) eq_refl)
        as (rest & h3 & h4 & _ & Hn3 & Hi3 & Huse3 & Hp3 & Hem & Hkeep).
      rewrite (emitIndicator_spec _ a _ p i Hn3 eq_refl Hi3 Hp3) in Hem.
      rewrite Hpat, Huse3, Huse in Hem. injection Hem as <-.
      eexists. rewrite Hkeep. simpl. rewrite lookup_insert_eq. done.
  - intros Hop.
    assert (node_Pattern (resetNode evID n) = node_Pattern n) as Hkeep.
    { rewrite resetNode_Pattern by done. by rewrite decide_True. }
    split; [done|]. split.
    + apply setTruth_heapStep in H.
      destruct (heapStep_lookup _ _ _ _ _ H Hn) as (n' & Hn' & _ & Hp & _).
      assert (n' = set_truth t n2) as -> by congruence. by apply Hp.
    + intros fuel0 b child0 evID0 h0 inds0 nots0 H0.
      apply setTruth_heapStep in H0.
      destruct (heapStep_lookup _ _ _ _ _ H0 Hn) as (n0 & Hn0 & _ & Hp & _).
      exists n0. auto.
Qed.

Lemma reset_clears_operator_pattern_witness :
  ∃ h1 n1 h' n' i',
    Fire 1 1 Graphs.watch = Ok (h1, [0%nat], [])
    ∧ nodes h1 !! 0%nat = Some n1
    ∧ node_Pattern n1 = Some (mkPattern "src.ipv4" "10.0.0.1" "" "")
    ∧ Fire 2 2 h1 = Ok (h', [0%nat], [])
    ∧ nodes h' !! 0%nat = Some n'
    ∧ node_Pattern n' = Some (mkPattern "dest.port" "8443" "" "")
    ∧ indicators h' !! 0%nat = Some i' ∧ ind_Value i' = "8443".
Proof.
  pose (or0 := Graphs.operator "OR" (Some 0%nat) [] [1; 2; 3]%nat []).
  pose (n1 := set_truth truthTrue
                (set_Pattern (Some (mkPattern "src.ipv4" "10.0.0.1" "" ""))
                   (set_eventID 1 or0))).
  pose (i1 := set_ind_Value "10.0.0.1"
                (set_ind_Type "ipv4" Graphs.torIndicator)).
  pose (h1 := storeIndicator 0 i1
                (storeNode 0 n1
                   (storeNode 1
                      (set_truth truthTrue
                         (set_eventID 1
                            (Graphs.leaf "src.ipv4" "10.0.0.1" [0]%nat)))
                      Graphs.watch))).
  pose (c := set_truth truthTrue
               (set_eventID 2 (Graphs.leaf "dest.port" "8443" [0]%nat))).
  pose (hm := storeNode 2 c h1).
  assert (Fire 1 1 Graphs.watch = Ok (h1, [0%nat], [])) as H1
    by (vm_compute; reflexivity).
  assert (Fire 2 2 h1 = setTruth 5 0 (ref_node 2) 2 hm) as Hlink
    by (vm_compute; reflexivity).
  destruct (reset_clears_operator_pattern 5 0 (ref_node 2) 2 hm n1 c)
    as (h' & inds & nots & n' & H & Hn' & Hop & _).
  - apply (bool_decide_unpack _). by vm_compute.
  - vm_compute. lia.
  - reflexivity.
  - discriminate.
  - reflexivity.
  - discriminate.
  - discriminate.
  - destruct Hop as (_ & _ & Hpat & Hsub); [discriminate|].
    assert (∃ hx nx, setTruth 5 0 (ref_node 2) 2 hm = Ok (hx, [0%nat], [])
                     ∧ nodes hx !! 0%nat = Some nx
                     ∧ node_truth nx = truthTrue
                     ∧ node_Pattern nx
                       = Some (mkPattern "dest.port" "8443" "" ""))
      as (hx & nx & Hx & Hnx & Htx & Hpx).
    { eexists _, _. split; [vm_compute; reflexivity|].
      split; [vm_compute; reflexivity|]. split; reflexivity. }
    rewrite H in Hx. injection Hx as <- -> ->.
    assert (nx = n') as -> by congruence.
    destruct (Hsub 0%nat i1 (mkPattern "dest.port" "8443" "" ""))
      as (i' & Hi' & Hv).
    + reflexivity.
    + reflexivity.
    + assert (map_Forall (λ b nb, node_Indicator nb = Some 0%nat → b = 0%nat)
                (nodes hm)) as Hall.
      { apply (bool_decide_unpack _). by vm_compute. }
      exact Hall.
    + reflexivity.
    + exact Htx.
    + exact Hpx.
    + exists h1, n1, h', n', i'.
      split; [exact H1|]. split; [reflexivity|]. split; [reflexivity|].
      split; [by rewrite Hlink|]. split; [exact Hn'|].
      split; [exact Hpx|]. split; [exact Hi'|exact Hv].
Defined.

(** * Further properties of [setTruth], [Fire] and [ResolveNot] *)

(** X1 — Termination.  The recursion of [setTruth] is bounded on every
    graph, cyclic parent links included: with more fuel than there are nodes
    not yet resolved for the event the call does not stop for lack of fuel,
    and any larger amount of fuel gives the same outcome. *)
Theorem setTruth_terminates
    (fuel fuel' : nat) (a : addr) (child : nodeRef) (evID : Z) (h : Heap) :
  (size (unresolvedSet evID h) < fuel)%nat → (fuel ≤ fuel')%nat →
  setTruth fuel a child evID h ≠ OutOfFuel
  ∧ setTruth fuel' a child evID h = setTruth fuel a child evID h.
Proof.
  intros Hlt Hle.
  pose proof (setTruth_fueled evID fuel a child h Hlt) as Hf.
  split; [done|]. by apply setTruth_fuel_le.
Qed.

Lemma setTruth_terminates_witness :
  setTruth 3 0 ref_trueNode 1 Shapes.cyclic ≠ OutOfFuel
  ∧ setTruth 10 0 ref_trueNode 1 Shapes.cyclic
    = setTruth 3 0 ref_trueNode 1 Shapes.cyclic.
Proof.
  apply (setTruth_terminates 3 10 0 ref_trueNode 1 Shapes.cyclic).
  - vm_compute. lia.
  - lia.
Defined.

Lemma runCalls_Ok_wf (evID : Z) (calls : list apiCall) (h : Heap) :
  wf h → Forall (λ c, is_Some (nodes h !! callNode c)) calls →
  ∃ h' inds nots, runCalls evID calls h = Ok (h', inds, nots) ∧ wf h'.
Proof.
  revert h. induction calls as [|c calls IH]; intros h Hwf Hcalls.
  - exists h, [], []. by split.
  - apply Forall_cons in Hcalls as [Hc Hcalls].
    assert (∃ r, runCall evID c h = Ok r) as [[[h1 i1] d1] H1].
    { destruct c; [by apply Fire_Ok|by apply ResolveNot_Ok]. }
    destruct (runCall_inv_step _ _ _ _ _ _ H1) as [S1 _].
    destruct (IH h1) as (h2 & i2 & d2 & H2 & Hwf2).
    + by eapply heapStep_wf.
    + eapply Forall_impl; [exact Hcalls|]. intros c' Hc'. simpl in *.
      by apply (proj1 (heapStep_is_Some evID h h1 _ S1)).
    + exists h2, (i1 ++ i2), (d1 ++ d2). split; [|done].
      simpl. rewrite H1. simpl. by rewrite H2.
Qed.


(** X2 — No panic on a well-formed graph.  On a graph whose links and
    indicator pointers are valid and whose AND nodes have a child, every run
    of [Fire] and [ResolveNot] calls on nodes of the graph returns, and the
    graph it leaves is well formed again. *)
Theorem runCalls_return
    (evID : Z) (calls : list apiCall) (h : Heap) :
  wf h → Forall (λ c, is_Some (nodes h !! callNode c)) calls →
  ∃ h' inds nots, runCalls evID calls h = Ok (h', inds, nots) ∧ wf h'.
Proof. apply runCalls_Ok_wf. Qed.

Lemma runCalls_return_witness :
  ∃ h' inds nots,
    runCalls 1 [callFire 4; callResolveNot 6; callFire 8] Graphs.tor
    = Ok (h', inds, nots) ∧ wf h'.
Proof.
  apply (runCalls_return 1 [callFire 4; callResolveNot 6; callFire 8]
           Graphs.tor tor_wf).
  repeat constructor; by eexists.
Defined.

(** X3 — An AND without children.  A true signal on an AND node that has no
    children and is not yet resolved for the event finds every child true;
    unless the node still holds a pattern in the event's generation, line 161
    then indexes the empty [Children] and the call panics. *)
Theorem childless_AND_panics
    (fuel : nat) (a : addr) (child : nodeRef) (evID : Z) (h : Heap)
    (n c : IndicatorNode) :
  nodes h !! a = Some n → node_Operator n = "AND" → node_Children n = [] →
  ¬ resolved evID n →
  node_eventID n ≠ evID ∨ node_Pattern n = None →
  deref h child = Some c → child ≠ ref_node a → node_truth c = truthTrue →
  setTruth (S fuel) a child evID h = Panic.
Proof.
  intros Hn Hop Hch Hnr Hpat Hc Hne Ht.
  cbn [setTruth]. rewrite Hn, Hc. simpl.
  rewrite decide_False by congruence.
  rewrite decide_True by (by apply unresolved_reset).
  unfold evalOperator. rewrite storeNode_lookup, deref_storeNode, Hc by done.
  simpl. rewrite resetNode_Operator, Hop, resetNode_Children, Hch. simpl.
  rewrite (decide_False (P := node_truth c = truthFalse)) by congruence.
  rewrite decide_True; [done|]. split; [done|].
  destruct Hpat as [He|Hp].
  - rewrite resetNode_Pattern by done. rewrite Hop. by rewrite decide_False.
  - destruct (decide (node_eventID n = evID)) as [He|He].
    + by rewrite resetNode_same_event.
    + rewrite resetNode_Pattern by done. rewrite Hop. by rewrite decide_False.
Qed.

Lemma childless_AND_panics_witness : Fire 1 1 Shapes.childless = Panic.
Proof.
  apply (childless_AND_panics (size (nodes Shapes.childless)) 1 ref_trueNode 1
           Shapes.childless (Graphs.operator "AND" None [0]%nat [] [])
           trueNode); try reflexivity.
  - intros [He _]. discriminate He.
  - left. discriminate.
  - discriminate.
Defined.

(** X4 — Leaves take the incoming truth.  A node without operator that is
    touched with a known truth while not yet resolved for the event ends the
    call with exactly that truth, in the event's generation and with the
    pattern it had. *)
Theorem leaf_resolution
    (fuel : nat) (a : addr) (child : nodeRef) (evID : Z) (h h' : Heap)
    (inds : list iaddr) (nots : list Z) (n c : IndicatorNode) :
  nodes h !! a = Some n → node_Operator n = "" → ¬ resolved evID n →
  deref h child = Some c → child ≠ ref_node a →
  node_truth c ≠ truthUnknown →
  setTruth fuel a child evID h = Ok (h', inds, nots) →
  ∃ n', nodes h' !! a = Some n'
        ∧ node_truth n' = node_truth c ∧ node_eventID n' = evID
        ∧ node_Pattern n' = node_Pattern n.
Proof.
  intros Hn Hop Hnr Hc Hne Hk H.
  destruct (setTruth_touch evID _ _ _ _ _ _ _ _ _ H Hn Hc Hk Hnr)
    as (t & h2 & n2 & He & Hn2 & Htr & Hev & Hfin & _).
  unfold evalOperator in He.
  rewrite storeNode_lookup, deref_storeNode, Hc in He by done. simpl in He.
  rewrite resetNode_Operator, Hop in He.
  rewrite decide_False in He by (by intros ?). injection He as <- <-.
  rewrite storeNode_lookup in Hn2. injection Hn2 as <-.
  exists (set_truth (node_truth c) (resetNode evID n)).
  split; [done|]. split; [done|]. split; [apply resetNode_eventID|]. simpl.
  destruct (resetNode_step evID n) as (_ & Hp & _). by apply Hp.
Qed.

Lemma leaf_resolution_witness :
  ∃ h' inds nots n',
    ResolveNot 9 1 Graphs.tor = Ok (h', inds, nots)
    ∧ nodes h' !! 9%nat = Some n' ∧ node_truth n' = truthFalse.
Proof.
  destruct (ResolveNot_Ok 1 9 Graphs.tor tor_wf) as [[[h' inds] nots] Hr];
    [by eexists|].
  destruct (leaf_resolution (fuelFor Graphs.tor) 9 ref_falseNode 1 Graphs.tor
              h' inds nots (Graphs.leaf "country" "GB" [6]%nat) falseNode)
    as (n' & Hn' & Ht & _).
  - reflexivity.
  - reflexivity.
  - intros [He _]. discriminate He.
  - reflexivity.
  - discriminate.
  - discriminate.
  - exact Hr.
  - exists h', inds, nots, n'. split; [exact Hr|]. split; [exact Hn'|exact Ht].
Defined.

(** X5 — No propagation without resolution.  When a touch with a known
    truth leaves its receiver unresolved for the event, the call has done
    nothing but reset the receiver: no parent was called, no indicator is
    reported, and the negations reported are the receiver's own. *)
Theorem unresolved_receiver_stops
    (fuel : nat) (a : addr) (child : nodeRef) (evID : Z) (h h' : Heap)
    (inds : list iaddr) (nots : list Z) (n n' c : IndicatorNode) :
  nodes h !! a = Some n → deref h child = Some c →
  node_truth c ≠ truthUnknown →
  setTruth fuel a child evID h = Ok (h', inds, nots) →
  nodes h' !! a = Some n' → ¬ resolved evID n' →
  h' = storeNode a (resetNode evID n) h
  ∧ inds = [] ∧ nots = node_SiblingNots n.
Proof.
  intros Hn Hc Hk H Hn' Hnr'.
  destruct fuel as [|fuel]; [discriminate|].
  apply setTruth_inv in H as (n0 & c0 & Hn0 & Hc0 & Hcases).
  assert (n0 = n) as -> by congruence. assert (c0 = c) as -> by congruence.
  destruct Hcases as [[? _]|[_ Hcases]]; [done|].
  destruct Hcases as [[_ Hr]|(Hu & t & h2 & He & [[-> Hr]|Hres])].
  - by injection Hr as -> -> ->.
  - injection Hr as -> -> ->.
    apply evalOperator_inv in He as (nr & pat & Hnr & -> & _ & Hpat & _).
    rewrite (Hpat eq_refl), set_Pattern_same.
    by rewrite (storeNode_same a nr _ Hnr).
  - exfalso. destruct Hres as (Ht & n2 & h4 & i0 & Hn2 & Hem & Hl).
    destruct (resolve_step evID _ _ _ _ _ _ _ _ _ Hn Hu He Ht Hn2 Hem)
      as (_ & Hn4 & Hr4 & _).
    apply (parentsLoop_inv evID _ (λ p, setTruth_inv_step evID fuel p (ref_node a)))
      in Hl as (S5 & _).
    pose proof (heapStep_resolved evID h4 h' a _ S5 Hn4 Hr4). congruence.
Qed.

Lemma unresolved_receiver_stops_witness :
  Fire 2 1 Graphs.tor
  = Ok (storeNode 2
          (resetNode 1 (Graphs.operator "AND" None [1]%nat [4; 7]%nat []))
          Graphs.tor, [], []).
Proof.
  destruct (Fire_Ok 1 2 Graphs.tor tor_wf) as [[[h' inds] nots] Hr];
    [by eexists|].
  rewrite Hr.
  destruct (unresolved_receiver_stops (fuelFor Graphs.tor) 2 ref_trueNode 1
              Graphs.tor h' inds nots
              (Graphs.operator "AND" None [1]%nat [4; 7]%nat [])
              (resetNode 1 (Graphs.operator "AND" None [1]%nat [4; 7]%nat []))
              trueNode)
    as (-> & -> & ->).
  - reflexivity.
  - reflexivity.
  - discriminate.
  - exact Hr.
  - revert Hr. vm_compute. intros Hr. injection Hr as <- _ _. reflexivity.
  - intros [_ Ht]. apply Ht. reflexivity.
  - reflexivity.
Defined.

(** ** Which nodes a call writes *)

Lemma resolve_nodes evID h a child n0 t h2 n2 h4 i0 :
  nodes h !! a = Some n0 →
  evalOperator (storeNode a (resetNode evID n0) h) a child = Ok (t, h2) →
  nodes h2 !! a = Some n2 →
  emitIndicator (storeNode a (set_truth t n2) h2) a = Ok (h4, i0) →
  nodes h4 = <[a := set_truth t n2]> (nodes h).
Proof.
  intros Hn He Hn2 Hem.
  apply (emitIndicator_inv evID) in Hem as (_ & _ & -> & _).
  apply evalOperator_inv in He as (nr & pat & _ & -> & _).
  simpl. by rewrite !insert_insert_eq.
Qed.

Lemma evalOperator_unknown h a child h2 :
  evalOperator h a child = Ok (truthUnknown, h2) → h2 = h.
Proof.
  intros He. apply evalOperator_inv in He as (nr & pat & Hnr & -> & _ & Hpat & _).
  rewrite (Hpat eq_refl), set_Pattern_same. by apply storeNode_same.
Qed.

Lemma resolved_reset_same evID n :
  node_truth (resetNode evID n) ≠ truthUnknown → resetNode evID n = n.
Proof.
  intros Hk. apply resetNode_resolved.
  destruct (decide (resolved evID n)) as [|Hnr]; [done|].
  by apply unresolved_reset in Hnr.
Qed.

Section Generation.
Variable evID : Z.

Lemma generationStep_refl h : generationStep evID h h.
Proof. intros b n Hb. eauto. Qed.

Lemma generationStep_trans h1 h2 h3 :
  generationStep evID h1 h2 → generationStep evID h2 h3 →
  generationStep evID h1 h3.
Proof.
  intros G1 G2 b n Hb.
  destruct (G1 b n Hb) as (n2 & Hn2 & Hor).
  destruct (G2 b n2 Hn2) as (n3 & Hn3 & Hor').
  exists n3. split; [done|]. destruct Hor' as [->|?]; auto.
Qed.

Lemma generationStep_insert h h' a n0 m :
  nodes h !! a = Some n0 → nodes h' = <[a := m]> (nodes h) →
  node_eventID m = evID → generationStep evID h h'.
Proof.
  intros Ha Hnodes Hm b n Hb. rewrite Hnodes.
  destruct (decide (a = b)) as [->|Hne].
  - rewrite lookup_insert_eq. eauto.
  - rewrite lookup_insert_ne by done. eauto.
Qed.

Lemma setTruth_generationStep fuel :
  ∀ a child h h' i d,
    setTruth fuel a child evID h = Ok (h', i, d) → generationStep evID h h'.
Proof.
  induction fuel as [|fuel IH]; intros a child h h' i d H; [discriminate|].
  apply setTruth_inv in H as (n0 & c0 & Hn & Hc & [[_ Hr]|[Hk Hcases]]).
  { injection Hr as -> -> ->. apply generationStep_refl. }
  destruct Hcases as [[_ Hr]|(Hu & t & h2 & He & [[-> Hr]|(Ht & n2 & h4 & i0 & Hn2 & Hem & Hl)])].
  - injection Hr as -> -> ->.
    apply (generationStep_insert h _ a n0 (resetNode evID n0)); try done.
    apply resetNode_eventID.
  - injection Hr as -> -> ->. rewrite (evalOperator_unknown _ _ _ _ He).
    apply (generationStep_insert h _ a n0 (resetNode evID n0)); try done.
    apply resetNode_eventID.
  - destruct (resolve_step evID _ _ _ _ _ _ _ _ _ Hn Hu He Ht Hn2 Hem)
      as (_ & _ & [Hev _] & _).
    eapply generationStep_trans.
    + apply (generationStep_insert h h4 a n0 (set_truth t n2)); try done.
      by eapply resolve_nodes.
    + apply (parentsLoop_rel (generationStep evID)) in Hl; try done.
      * apply generationStep_refl.
      * apply generationStep_trans.
      * intros p x y i' d'. apply IH.
Qed.

Lemma runCalls_generationStep calls :
  ∀ h h' inds nots,
    runCalls evID calls h = Ok (h', inds, nots) → generationStep evID h h'.
Proof.
  induction calls as [|c calls IH]; simpl; intros h h' inds nots H.
  - injection H as <- _ _. apply generationStep_refl.
  - apply bind_Ok in H as ([[h1 i1] d1] & H1 & H).
    apply bind_Ok in H as ([[h2 i2] d2] & H2 & H).
    injection H as <- _ _.
    eapply generationStep_trans; [|by eapply IH].
    destruct c; by eapply setTruth_generationStep.
Qed.
End Generation.

(** X6 — Only the current generation is written.  After a run of [Fire] and
    [ResolveNot] calls for one event, every node is either exactly as it was
    or in the generation of that event: state belonging to other events is
    never modified in place, and every modified node has been stamped. *)
Theorem only_current_generation_written
    (evID : Z) (calls : list apiCall) (h h' : Heap)
    (inds : list iaddr) (nots : list Z) (b : addr) (n : IndicatorNode) :
  runCalls evID calls h = Ok (h', inds, nots) →
  nodes h !! b = Some n →
  ∃ n', nodes h' !! b = Some n' ∧ (n' = n ∨ node_eventID n' = evID).
Proof. intros H Hb. by apply (runCalls_generationStep evID calls h h' inds nots). Qed.

Lemma only_current_generation_written_witness :
  ∃ h' inds nots n',
    runCalls 1 [callFire 4; callFire 7] Graphs.tor = Ok (h', inds, nots)
    ∧ nodes h' !! 3%nat = Some n'
    ∧ (n' = Graphs.operator "AND" None [1]%nat [5; 8]%nat []
       ∨ node_eventID n' = 1).
Proof.
  destruct (runCalls_Ok_wf 1 [callFire 4; callFire 7] Graphs.tor tor_wf)
    as (h' & inds & nots & Hr & _).
  { repeat constructor; by eexists. }
  destruct (only_current_generation_written 1 [callFire 4; callFire 7]
              Graphs.tor h' inds nots 3
              (Graphs.operator "AND" None [1]%nat [5; 8]%nat []) Hr eq_refl)
    as (n' & Hn' & Hor).
  exists h', inds, nots, n'. split; [exact Hr|]. split; [exact Hn'|exact Hor].
Defined.

(** ** AND nodes that are true *)

Section AndSound.
Variable evID : Z.

Lemma childTrue_insert h h' a n0 m c :
  nodes h !! a = Some n0 → ¬ resolved evID n0 →
  nodes h' = <[a := m]> (nodes h) →
  childTrue h evID c → childTrue h' evID c.
Proof.
  intros Ha Hnr Hnodes (ch & Hch & He & Ht). exists ch.
  split; [|done]. rewrite Hnodes.
  destruct (decide (a = c)) as [->|Hne]; [|by rewrite lookup_insert_ne].
  exfalso. apply Hnr. assert (ch = n0) as -> by congruence.
  split; congruence.
Qed.

Lemma andSound_insert h h' a n0 m :
  andSound evID h → nodes h !! a = Some n0 → ¬ resolved evID n0 →
  nodes h' = <[a := m]> (nodes h) →
  (node_Operator m = "AND" → node_eventID m = evID →
   node_truth m = truthTrue →
   Forall (childTrue h evID) (node_Children m)) →
  andSound evID h'.
Proof.
  intros Hsound Ha Hnr Hnodes Hm b nb Hb Hop He Ht.
  assert (Forall (childTrue h evID) (node_Children nb)) as Hall.
  { rewrite Hnodes in Hb. destruct (decide (a = b)) as [->|Hne].
    - rewrite lookup_insert_eq in Hb. injection Hb as <-. by apply Hm.
    - rewrite lookup_insert_ne in Hb by done. by apply (Hsound b nb). }
  eapply Forall_impl; [exact Hall|]. intros c.
  by apply (childTrue_insert h h' a n0 m).
Qed.

Lemma evalOperator_AND_children h a child h2 nr :
  evalOperator h a child = Ok (truthTrue, h2) →
  nodes h !! a = Some nr → node_Operator nr = "AND" →
  Forall (childTrue h (node_eventID nr)) (node_Children nr).
Proof.
  unfold evalOperator. intros He Hn Hop. rewrite Hn in He. simpl in He.
  apply bind_Ok in He as (c & _ & He). rewrite Hop in He. simpl in He.
  case_decide; [by injection He|].
  apply bind_Ok in He as (u & Hu & He).
  assert (u = truthTrue) as ->.
  { case_decide; ok_inv He; congruence. }
  by apply childrenTrue_True.
Qed.

Lemma setTruth_andSound fuel :
  ∀ a child h h' i d,
    setTruth fuel a child evID h = Ok (h', i, d) →
    andSound evID h → andSound evID h'.
Proof.
  induction fuel as [|fuel IH]; intros a child h h' i d H Hsound; [discriminate|].
  apply setTruth_inv in H as (n0 & c0 & Hn & Hc & [[_ Hr]|[Hk Hcases]]).
  { by injection Hr as -> -> ->. }
  destruct Hcases as [[Hres Hr]|(Hu & t & h2 & He & Hcases)].
  { injection Hr as -> -> ->.
    by rewrite (resolved_reset_same evID n0 Hres), (storeNode_same a n0 h Hn). }
  assert (¬ resolved evID n0) as Hnr by (by apply unresolved_reset).
  destruct Hcases as [[-> Hr]|(Ht & n2 & h4 & i0 & Hn2 & Hem & Hl)].
  - injection Hr as -> -> ->. rewrite (evalOperator_unknown _ _ _ _ He).
    apply (andSound_insert h _ a n0 (resetNode evID n0)); try done.
    intros _ _ Htt. congruence.
  - assert (andSound evID h4) as Hsound4.
    { apply (andSound_insert h h4 a n0 (set_truth t n2)); try done.
      - by eapply resolve_nodes.
      - simpl. intros Hop _ ->.
        destruct (resolve_step evID _ _ _ _ _ _ _ _ _ Hn Hu He Ht Hn2 Hem)
          as (_ & _ & _ & ((_ & _ & _ & Hop2 & _ & _ & Hch2 & _) & _) & _).
        rewrite Hch2.
        pose proof (evalOperator_AND_children _ _ _ _ (resetNode evID n0) He
                      (storeNode_lookup _ _ _)) as Hall.
        rewrite resetNode_eventID in Hall.
        eapply Forall_impl; [apply Hall; congruence|].
        intros c. apply (childTrue_storeNode evID h a n0); [done..|].
        intros [_ Hr]. by apply Hr. }
    apply (parentsLoop_rel (λ x y, andSound evID x → andSound evID y)) in Hl;
      auto.
    intros p x y i' d'. apply IH.
Qed.

Lemma runCalls_andSound calls :
  ∀ h h' inds nots,
    runCalls evID calls h = Ok (h', inds, nots) →
    andSound evID h → andSound evID h'.
Proof.
  induction calls as [|c calls IH]; simpl; intros h h' inds nots H Hsound.
  - by injection H as <- _ _.
  - apply bind_Ok in H as ([[h1 i1] d1] & H1 & H).
    apply bind_Ok in H as ([[h2 i2] d2] & H2 & H).
    injection H as <- _ _. eapply IH; [done|].
    destruct c; by eapply setTruth_andSound.
Qed.
End AndSound.

(** X7 — An AND is true only over true children.  If every AND node that is
    true for the event has all its children true for the event, this still
    holds after any run of [Fire] and [ResolveNot] calls for the event,
    whatever nodes the driver chooses to call them on. *)
Theorem AND_true_is_sound
    (evID : Z) (calls : list apiCall) (h h' : Heap)
    (inds : list iaddr) (nots : list Z) :
  andSound evID h →
  runCalls evID calls h = Ok (h', inds, nots) →
  andSound evID h'.
Proof. intros Hsound H. by apply (runCalls_andSound evID calls h h' inds nots). Qed.

Lemma tor_all_unknown :
  ∀ b n, nodes Graphs.tor !! b = Some n → node_truth n = truthUnknown.
Proof.
  assert (map_Forall (λ _ n, node_truth n = truthUnknown) (nodes Graphs.tor))
    as H.
  { apply (bool_decide_unpack _). by vm_compute. }
  exact H.
Qed.

Lemma AND_true_is_sound_witness :
  ∃ h' inds nots n',
    runCalls 1 [callFire 4; callFire 7] Graphs.tor = Ok (h', inds, nots)
    ∧ nodes h' !! 2%nat = Some n' ∧ node_truth n' = truthTrue
    ∧ andSound 1 h'.
Proof.
  eexists _, _, _, _. split; [vm_compute; reflexivity|].
  split; [vm_compute; reflexivity|]. split; [reflexivity|].
  eapply (AND_true_is_sound 1 [callFire 4; callFire 7] Graphs.tor).
  - intros b n Hb _ _ Ht. rewrite (tor_all_unknown b n Hb) in Ht. discriminate Ht.
  - vm_compute. reflexivity.
Defined.

(** ** What a call reports about the nodes it touches *)

Section Touched.
Variable evID : Z.

Lemma setTruth_receiver_generation fuel a child h h' i d c :
  setTruth fuel a child evID h = Ok (h', i, d) →
  deref h child = Some c → node_truth c ≠ truthUnknown →
  ∃ n', nodes h' !! a = Some n' ∧ node_eventID n' = evID.
Proof.
  intros H Hc Hk. pose proof H as H'.
  destruct fuel as [|fuel]; [discriminate|].
  apply setTruth_inv in H' as (n0 & _ & Hn & _).
  destruct (decide (resolved evID n0)) as [Hr|Hnr].
  - exists n0. split; [|by destruct Hr].
    apply (heapStep_resolved evID h h' a n0); [|done..].
    by eapply setTruth_heapStep.
  - destruct (setTruth_touch evID _ _ _ _ _ _ _ _ _ H Hn Hc Hk Hnr)
      as (t & h2 & n2 & _ & _ & _ & Hev & Hfin & _).
    by exists (set_truth t n2).
Qed.

Lemma notsFrom_app h d1 d2 :
  notsFrom evID h d1 → notsFrom evID h d2 → notsFrom evID h (d1 ++ d2).
Proof. apply Forall_app_2. Qed.

Lemma notsFrom_step h h' d :
  heapStep evID h h' → generationStep evID h h' →
  notsFrom evID h d → notsFrom evID h' d.
Proof.
  intros Hs Hg Hd. eapply Forall_impl; [exact Hd|].
  intros z (b & n & Hb & He & Hz).
  destruct (Hg b n Hb) as (n' & Hn' & Hor).
  destruct (heapStep_lookup _ _ _ _ _ Hs Hb) as (n'' & Hn'' & Hst & _).
  assert (n'' = n') as -> by congruence.
  exists b, n'. split; [done|]. split.
  - destruct Hor as [->|?]; done.
  - by destruct Hst as (_ & _ & _ & _ & _ & _ & _ & -> & _).
Qed.

Lemma notsFrom_receiver h a n d :
  nodes h !! a = Some n → node_eventID n = evID →
  d = node_SiblingNots n → notsFrom evID h d.
Proof.
  intros Ha He ->. apply Forall_forall. intros z Hz. by exists a, n.
Qed.

Lemma parentsLoop_notsFrom
    (call : addr → Heap → outcome (Heap * list iaddr * list Z)) :
  (∀ p h h' i d, call p h = Ok (h', i, d) →
     heapStep evID h h' ∧ generationStep evID h h' ∧ notsFrom evID h' d) →
  ∀ ps h i0 d0 h' i d,
    parentsLoop call ps h i0 d0 = Ok (h', i, d) →
    heapStep evID h h' ∧ generationStep evID h h'
    ∧ ∃ d1, d = d0 ++ d1 ∧ notsFrom evID h' d1.
Proof.
  intros Hcall ps. induction ps as [|p ps IH]; simpl; intros h i0 d0 h' i d H.
  - injection H as <- _ <-. split; [apply heapStep_refl|].
    split; [apply generationStep_refl|].
    exists []. rewrite app_nil_r. split; [done|]. constructor.
  - apply bind_Ok in H as ([[hp ip] dp] & Hp & H).
    destruct (Hcall _ _ _ _ _ Hp) as (Sp & Gp & Np).
    destruct (IH _ _ _ _ _ _ H) as (Sr & Gr & d1 & -> & Nr).
    split; [by eapply heapStep_trans|].
    split; [by eapply generationStep_trans|].
    exists (dp ++ d1). rewrite app_assoc. split; [done|].
    apply notsFrom_app; [|done]. by apply (notsFrom_step hp h').
Qed.

Lemma setTruth_notsFrom fuel :
  ∀ a child h h' i d,
    setTruth fuel a child evID h = Ok (h', i, d) → notsFrom evID h' d.
Proof.
  induction fuel as [|fuel IH]; intros a child h h' i d H; [discriminate|].
  pose proof H as H'.
  apply setTruth_inv in H' as (n0 & c0 & Hn & Hc & [[_ Hr]|[Hk Hcases]]).
  { injection Hr as -> -> ->. constructor. }
  destruct (setTruth_receiver_generation _ _ _ _ _ _ _ _ H Hc Hk)
    as (n' & Hn' & He').
  assert (node_SiblingNots n' = node_SiblingNots n0) as Hsame.
  { destruct (heapStep_lookup _ _ _ _ _ (setTruth_heapStep _ _ _ _ _ _ _ _ H) Hn)
      as (n'' & Hn'' & (_ & _ & _ & _ & _ & _ & _ & Hs & _) & _).
    congruence. }
  assert (notsFrom evID h' (node_SiblingNots n0)) as Hown.
  { by apply (notsFrom_receiver h' a n'). }
  destruct Hcases as [[_ Hr]|(Hu & t & h2 & He & [[-> Hr]|(Ht & n2 & h4 & i0 & Hn2 & Hem & Hl)])].
  - by injection Hr as -> -> ->.
  - by injection Hr as -> -> ->.
  - apply (parentsLoop_notsFrom
             (λ p, setTruth fuel p (ref_node a) evID)) in Hl.
    + destruct Hl as (_ & _ & d1 & -> & Hd1). by apply notsFrom_app.
    + intros p x y i' d' Hcall. split; [by eapply setTruth_heapStep|].
      split; [by eapply setTruth_generationStep|by eapply IH].
Qed.

Lemma parentsLoop_touches fuel a ps :
  ∀ h i0 d0 h' i d m,
    parentsLoop (λ p, setTruth fuel p (ref_node a) evID) ps h i0 d0
    = Ok (h', i, d) →
    nodes h !! a = Some m → resolved evID m →
    ∀ p, p ∈ ps →
      ∃ np np', nodes h !! p = Some np ∧ nodes h' !! p = Some np'
                ∧ node_eventID np' = evID
                ∧ (∀ z, z ∈ node_SiblingNots np → z ∈ d).
Proof.
  induction ps as [|p0 ps IH]; simpl; intros h i0 d0 h' i d m H Ha Hr p Hp.
  { by apply elem_of_nil in Hp. }
  apply bind_Ok in H as ([[hp ip] dp] & Hcall & H).
  pose proof (setTruth_heapStep _ _ _ _ _ _ _ _ Hcall) as Sp.
  pose proof H as Hrest.
  apply (parentsLoop_notsFrom (λ q, setTruth fuel q (ref_node a) evID)) in Hrest
    as (Sr & Gr & d1 & -> & _).
  2:{ intros q x y i' d' Hq. split; [by eapply setTruth_heapStep|].
      split; [by eapply setTruth_generationStep|by eapply setTruth_notsFrom]. }
  apply elem_of_cons in Hp as [->|Hp].
  - destruct fuel as [|fuel]; [discriminate|]. pose proof Hcall as Hinv.
    apply setTruth_inv in Hinv as (np & _ & Hnp & _).
    destruct (setTruth_nots_prefix _ _ _ _ _ _ _ _ np m Hcall Hnp Ha)
      as [rest ->]; [by destruct Hr|].
    destruct (setTruth_receiver_generation _ _ _ _ _ _ _ m Hcall Ha)
      as (np1 & Hnp1 & He1); [by destruct Hr|].
    destruct (Gr p0 np1 Hnp1) as (np' & Hnp' & Hor).
    exists np, np'. split; [done|]. split; [done|]. split.
    + destruct Hor as [->|?]; done.
    + intros z Hz. rewrite !elem_of_app. auto.
  - destruct (IH _ _ _ _ _ _ m H (heapStep_resolved _ _ _ _ _ Sp Ha Hr) Hr p Hp)
      as (npp & np' & Hnpp & Hnp' & He' & Hsub).
    destruct (heapStep_lookup_inv _ _ _ _ _ Sp Hnpp)
      as (np & Hnp & (_ & _ & _ & _ & _ & _ & _ & Hs & _) & _).
    exists np, np'. split; [done|]. split; [done|]. split; [done|].
    intros z Hz. apply Hsub. by rewrite Hs.
Qed.
End Touched.

(** X8 — Resolution reaches every parent.  When a call resolves its
    receiver, each node in the receiver's [Parents] has been touched: it ends
    the call in the event's generation and its [SiblingNots] are among the
    negations reported, so a node shared by several parents feeds all of them
    in the one call. *)
Theorem parents_touched
    (fuel : nat) (a : addr) (child : nodeRef) (evID : Z) (h h' : Heap)
    (inds : list iaddr) (nots : list Z) (n n' : IndicatorNode) :
  nodes h !! a = Some n → ¬ resolved evID n →
  setTruth fuel a child evID h = Ok (h', inds, nots) →
  nodes h' !! a = Some n' → resolved evID n' →
  ∀ p, p ∈ node_Parents n →
    ∃ np np', nodes h !! p = Some np ∧ nodes h' !! p = Some np'
              ∧ node_eventID np' = evID
              ∧ (∀ z, z ∈ node_SiblingNots np → z ∈ nots).
Proof.
  intros Hn Hnr H Hn' Hr' p Hp.
  destruct fuel as [|fuel]; [discriminate|].
  apply setTruth_inv in H as (n0 & c0 & Hn0 & Hc & Hcases).
  assert (n0 = n) as -> by congruence.
  destruct Hcases as [[_ Hr]|[Hk Hcases]].
  { injection Hr as -> -> ->. exfalso. apply Hnr. congruence. }
  pose proof (proj1 (unresolved_reset evID n) Hnr) as Hu.
  destruct Hcases as [[Hres _]|(_ & t & h2 & He & Hcases)]; [done|].
  destruct (evalOperator_step evID _ _ _ _ _ _ He (storeNode_lookup _ _ _) Hu)
    as (_ & n2 & Hn2 & _ & Htr & _).
  destruct Hcases as [[-> Hr]|(Ht & n2' & h4 & i0 & Hn2' & Hem & Hl)].
  { injection Hr as -> -> ->. exfalso. destruct Hr' as [_ Hk']. congruence. }
  assert (n2' = n2) as -> by congruence.
  destruct (resolve_step evID _ _ _ _ _ _ _ _ _ Hn Hu He Ht Hn2 Hem)
    as (S4 & Hn4 & Hr4 & Hst & _).
  assert (node_Parents n2 = node_Parents n) as Hpar.
  { destruct Hst as ((_ & _ & _ & _ & _ & -> & _) & _).
    by destruct (resetNode_step evID n) as ((_ & _ & _ & _ & _ & -> & _) & _). }
  rewrite Hpar in Hl.
  destruct (parentsLoop_touches evID _ _ _ _ _ _ _ _ _ _ Hl Hn4 Hr4 p Hp)
    as (np4 & np' & Hnp4 & Hnp' & He' & Hsub).
  destruct (heapStep_lookup_inv _ _ _ _ _ S4 Hnp4)
    as (np & Hnp & (_ & _ & _ & _ & _ & _ & _ & Hs & _) & _).
  exists np, np'. split; [done|]. split; [done|]. split; [done|].
  intros z Hz. apply Hsub. by rewrite Hs.
Qed.

Lemma parents_touched_witness :
  ∃ h' inds nots np',
    Fire 2 1 (storeNode 4 (set_truth truthTrue (set_eventID 1
                (Graphs.leaf "src.ipv4" "103.199.16.66" [2]%nat)))
              (storeNode 7 (set_truth truthTrue (set_eventID 1
                (Graphs.leaf "port" "443" [2]%nat))) Graphs.tor))
    = Ok (h', inds, nots)
    ∧ nodes h' !! 1%nat = Some np' ∧ node_eventID np' = 1
    ∧ 6 ∈ nots.
Proof.
  set (h := storeNode 4 (set_truth truthTrue (set_eventID 1
                (Graphs.leaf "src.ipv4" "103.199.16.66" [2]%nat)))
              (storeNode 7 (set_truth truthTrue (set_eventID 1
                (Graphs.leaf "port" "443" [2]%nat))) Graphs.tor)).
  assert (∃ r, Fire 2 1 h = Ok r) as [[[h' inds] nots] Hr].
  { eexists. vm_compute. reflexivity. }
  destruct (parents_touched (fuelFor h) 2 ref_trueNode 1 h h' inds nots
              (Graphs.operator "AND" None [1]%nat [4; 7]%nat [])
              (set_truth truthTrue
                 (set_Pattern
                    (Some (mkPattern "src.ipv4" "103.199.16.66" "" ""))
                    (set_eventID 1
                       (Graphs.operator "AND" None [1]%nat [4; 7]%nat []))))
              eq_refl) with (p := 1%nat)
    as (np & np' & Hnp & Hnp' & He' & Hsub).
  - intros [He _]. discriminate He.
  - exact Hr.
  - revert Hr. vm_compute. intros Hr. injection Hr as <- _ _. reflexivity.
  - split; [reflexivity|discriminate].
  - simpl. apply list_elem_of_In. simpl. auto.
  - exists h', inds, nots, np'.
    split; [exact Hr|]. split; [exact Hnp'|]. split; [exact He'|].
    apply Hsub. vm_compute in Hnp. injection Hnp as <-.
    apply list_elem_of_In. simpl. auto.
Defined.

Lemma runCalls_notsFrom evID calls :
  ∀ h h' inds nots,
    runCalls evID calls h = Ok (h', inds, nots) → notsFrom evID h' nots.
Proof.
  induction calls as [|c calls IH]; simpl; intros h h' inds nots H.
  - injection H as _ _ <-. constructor.
  - apply bind_Ok in H as ([[h1 i1] d1] & H1 & H).
    apply bind_Ok in H as ([[h2 i2] d2] & H2 & H).
    injection H as <- _ <-. apply notsFrom_app; [|by eapply IH].
    destruct (runCalls_inv_step _ _ _ _ _ _ H2) as [S2 _].
    pose proof (runCalls_generationStep _ _ _ _ _ _ H2) as G2.
    apply (notsFrom_step evID h1 h2); [done..|].
    destruct c; by eapply setTruth_notsFrom.
Qed.

(** X9 — Negations come from touched nodes only.  Every negation reported
    by a run of [Fire] and [ResolveNot] calls for one event is configured in
    the [SiblingNots] of a node that the run has left in the generation of
    that event. *)
Theorem negations_from_touched_nodes
    (evID : Z) (calls : list apiCall) (h h' : Heap)
    (inds : list iaddr) (nots : list Z) (z : Z) :
  runCalls evID calls h = Ok (h', inds, nots) → z ∈ nots →
  ∃ b n, nodes h' !! b = Some n ∧ node_eventID n = evID
         ∧ z ∈ node_SiblingNots n.
Proof.
  intros H Hz. apply runCalls_notsFrom in H.
  by apply (proj1 (Forall_forall _ _) H z).
Qed.

Lemma negations_from_touched_nodes_witness :
  ∃ h' inds nots b n,
    runCalls 1 [callFire 4; callFire 7] Graphs.tor = Ok (h', inds, nots)
    ∧ nodes h' !! b = Some n ∧ node_eventID n = 1
    ∧ 6 ∈ node_SiblingNots n.
Proof.
  destruct (runCalls_Ok_wf 1 [callFire 4; callFire 7] Graphs.tor tor_wf)
    as (h' & inds & nots & Hr & _).
  { repeat constructor; by eexists. }
  destruct (negations_from_touched_nodes 1 [callFire 4; callFire 7]
              Graphs.tor h' inds nots 6 Hr) as (b & n & Hb & He & Hz).
  - revert Hr. vm_compute. intros Hr. injection Hr as _ _ <-.
    apply list_elem_of_In. simpl. auto.
  - exists h', inds, nots, b, n. split; [exact Hr|]. by repeat split.
Defined.

(** ** The reported type *)

Lemma append_empty_r (s : string) : s +:+ "" = s.
Proof.
  induction s as [|c s IH]; [done|].
  change (String c (s +:+ "") = String c s). by rewrite IH.
Qed.

Lemma Split_cons sep s p ps :
  Split s sep = p :: ps →
  hasByte sep p = false
  ∧ ((ps = [] ∧ s = p) ∨ ∃ s', ps = Split s' sep ∧ s = p +:+ String sep s').
Proof.
  revert p ps. induction s as [|c s IH]; simpl; intros p ps H.
  - injection H as <- <-. split; [done|]. by left.
  - destruct (Ascii.eqb c sep) eqn:Hc.
    + injection H as <- <-. split; [done|]. right.
      apply Ascii.eqb_eq in Hc as ->. by exists s.
    + destruct (Split s sep) as [|q qs] eqn:Hq.
      { exfalso. by apply (Split_nonempty sep s). }
      injection H as <- <-. destruct (IH q qs eq_refl) as [Hno Hor].
      split; [by simpl; rewrite Hc|].
      destruct Hor as [[-> ->]|(s' & -> & ->)]; [by left|].
      right. by exists s'.
Qed.

(** The part that lines 197-201 pick: the text between the first and the
    second separator, or the whole string when it has no separator. *)
Lemma Split_picked sep s :
  let parts := Split s sep in
  let picked := if decide (1 < List.length parts)%nat
                then nth 1 parts "" else nth 0 parts "" in
  hasByte sep picked = false
  ∧ (s = picked
     ∨ ∃ pre rest, s = pre +:+ String sep (picked +:+ rest)
                   ∧ hasByte sep pre = false
                   ∧ (rest = "" ∨ ∃ r, rest = String sep r)).
Proof.
  simpl. destruct (Split s sep) as [|p0 ps] eqn:H0.
  { exfalso. by apply (Split_nonempty sep s). }
  destruct (Split_cons _ _ _ _ H0) as [Hno0 [[-> ->]|(s' & -> & ->)]].
  - simpl. split; [done|]. by left.
  - destruct (Split s' sep) as [|p1 ps'] eqn:H1.
    { exfalso. by apply (Split_nonempty sep s'). }
    destruct (Split_cons _ _ _ _ H1) as [Hno1 Hor].
    rewrite decide_True by (simpl; lia). simpl. split; [done|]. right.
    destruct Hor as [[-> ->]|(s'' & -> & ->)].
    + exists p0, "". split; [|split; [done|by left]].
      by rewrite append_empty_r.
    + exists p0, (String sep s''). split; [done|]. split; [done|].
      right. by exists s''.
Qed.

(** X10 — The reported type has no dot.  When a call resolves its receiver
    true and rewrites the receiver's indicator from the pattern, the [Type]
    it reports never contains a dot: it is the pattern's type when that has
    no dot, and otherwise the text between the first dot and the second, so
    that everything from a second dot on is dropped. *)
Theorem reported_type_has_no_dot
    (fuel : nat) (a : addr) (child : nodeRef) (evID : Z) (h h' : Heap)
    (inds : list iaddr) (nots : list Z) (n n' : IndicatorNode)
    (p : iaddr) (i : Indicator) (pat : Pattern) :
  nodes h !! a = Some n → ¬ resolved evID n →
  node_Indicator n = Some p → indicators h !! p = Some i →
  (∀ b nb, nodes h !! b = Some nb → node_Indicator nb = Some p → b = a) →
  setTruth fuel a child evID h = Ok (h', inds, nots) →
  nodes h' !! a = Some n' → resolved evID n' → node_truth n' = truthTrue →
  node_Pattern n' = Some pat → node_UseOriginalIndicatorValue n = false →
  ∃ i', indicators h' !! p = Some i'
        ∧ hasByte "." (ind_Type i') = false
        ∧ (pat_Type pat = ind_Type i'
           ∨ ∃ pre rest,
               pat_Type pat = pre +:+ "." +:+ ind_Type i' +:+ rest
               ∧ hasByte "." pre = false
               ∧ (rest = "" ∨ ∃ r, rest = "." +:+ r)).
Proof.
  intros Hn Hnr Hi Hp Huniq H Hn' Hr' Ht' Hpat Huse.
  destruct (receiver_emission _ _ _ _ _ _ _ _ _ _ _ _ Hn Hnr Hi Hp Huniq H
              Hn' Hr' Ht')
    as (rest & h3 & h4 & _ & Hn3 & Hi3 & Huse3 & Hp3 & Hem & Hkeep).
  rewrite (emitIndicator_spec _ a n' p i Hn3 Ht' Hi3 Hp3) in Hem.
  rewrite Hpat, Huse3, Huse in Hem. injection Hem as <-.
  eexists. rewrite Hkeep. simpl. rewrite lookup_insert_eq.
  split; [done|]. simpl. apply Split_picked.
Qed.

Lemma reported_type_has_no_dot_witness :
  ∃ h' i',
    Fire 0 1 Graphs.beacon = Ok (h', [0%nat], [])
    ∧ indicators h' !! 0%nat = Some i'
    ∧ hasByte "." (ind_Type i') = false.
Proof.
  pose (n := mkNode "" "" "" "" (Some 0%nat) [] [] []
                    (Some (mkPattern "dest.ipv4" "10.9.8.7" "" ""))
                    truthUnknown 0 false).
  pose (n' := set_truth truthTrue (set_eventID 1 n)).
  pose (h' := storeIndicator 0
                (set_ind_Value "10.9.8.7"
                   (set_ind_Type "ipv4" Graphs.torIndicator))
                (storeNode 0 n' Graphs.beacon)).
  assert (Fire 0 1 Graphs.beacon = Ok (h', [0%nat], [])) as Hr
    by (vm_compute; reflexivity).
  destruct (reported_type_has_no_dot (fuelFor Graphs.beacon) 0 ref_trueNode 1
              Graphs.beacon h' [0%nat] [] n n' 0 Graphs.torIndicator
              (mkPattern "dest.ipv4" "10.9.8.7" "" ""))
    as (i' & Hi' & Hno & _).
  - reflexivity.
  - intros [He _]. discriminate He.
  - reflexivity.
  - reflexivity.
  - assert (map_Forall (λ b nb, node_Indicator nb = Some 0%nat → b = 0%nat)
              (nodes Graphs.beacon)) as H.
    { apply (bool_decide_unpack _). by vm_compute. }
    exact H.
  - exact Hr.
  - reflexivity.
  - split; [reflexivity|discriminate].
  - reflexivity.
  - reflexivity.
  - reflexivity.
  - exists h', i'. split; [exact Hr|]. split; [exact Hi'|exact Hno].
Defined.

(** ** Decisive signals *)

Section Decisive.
Variable evID : Z.

Lemma setTruth_decisive fuel p child h h' i d np c :
  setTruth fuel p child evID h = Ok (h', i, d) →
  nodes h !! p = Some np → deref h child = Some c → child ≠ ref_node p →
  node_truth c ≠ truthUnknown →
  decisive (node_Operator np) (node_truth c) →
  ∃ np', nodes h' !! p = Some np' ∧ resolved evID np'.
Proof.
  intros H Hn Hc Hne Hk Hdec.
  destruct (decide (resolved evID np)) as [Hr|Hnr].
  { exists np. split; [|done].
    apply (heapStep_resolved evID h h' p np); [|done..].
    by eapply setTruth_heapStep. }
  destruct (setTruth_touch evID _ _ _ _ _ _ _ _ _ H Hn Hc Hk Hnr)
    as (t & h2 & n2 & He & Hn2 & Htr & Hev & Hfin & _).
  exists (set_truth t n2). split; [done|]. split; [done|]. simpl.
  assert (nodes (storeNode p (resetNode evID np) h) !! p
          = Some (resetNode evID np)) as Hn1 by apply storeNode_lookup.
  assert (deref (storeNode p (resetNode evID np) h) child = Some c) as Hc1
    by (by rewrite deref_storeNode).
  pose proof (resetNode_Operator evID np) as Hop1.
  destruct Hdec as [Hop|[Hop|[[Hop Ht]|[Hop Ht]]]]; rewrite Hop in Hop1.
  - unfold evalOperator in He. rewrite Hn1, Hc1 in He. simpl in He.
    rewrite Hop1 in He. rewrite decide_False in He by (by intros ?).
    by injection He as <- _.
  - rewrite (evalOperator_NOT _ _ _ _ _ Hn1 Hc1 Hop1) in He.
    injection He as <- _. by case_decide.
  - rewrite (evalOperator_AND_False _ _ _ _ _ Hn1 Hc1 Hop1 Ht) in He.
    by injection He as <- _.
  - rewrite (evalOperator_OR _ _ _ _ _ Hn1 Hc1 Hop1) in He.
    rewrite decide_True in He by done. by injection He as <- _.
Qed.

Lemma parentsLoop_resolves fuel a ps :
  ∀ h i0 d0 h' i d m,
    parentsLoop (λ p, setTruth fuel p (ref_node a) evID) ps h i0 d0
    = Ok (h', i, d) →
    nodes h !! a = Some m → resolved evID m →
    ∀ p, p ∈ ps → p ≠ a →
      ∃ np np', nodes h !! p = Some np ∧ nodes h' !! p = Some np'
                ∧ (decisive (node_Operator np) (node_truth m) →
                   resolved evID np').
Proof.
  induction ps as [|p0 ps IH]; simpl; intros h i0 d0 h' i d m H Ha Hr p Hp Hpa.
  { by apply elem_of_nil in Hp. }
  apply bind_Ok in H as ([[hp ip] dp] & Hcall & H).
  pose proof (setTruth_heapStep _ _ _ _ _ _ _ _ Hcall) as Sp.
  destruct (parentsLoop_frame _ _ _ _ _ _ _ _ _ _ H) as [Sr _].
  apply elem_of_cons in Hp as [->|Hp].
  - destruct fuel as [|fuel]; [discriminate|]. pose proof Hcall as Hinv.
    apply setTruth_inv in Hinv as (np & _ & Hnp & _).
    destruct (heapStep_lookup _ _ _ _ _ (heapStep_trans _ _ _ _ Sp Sr) Hnp)
      as (np' & Hnp' & _).
    exists np, np'. split; [done|]. split; [done|]. intros Hdec.
    destruct (setTruth_decisive _ _ _ _ _ _ _ np m Hcall Hnp Ha)
      as (np1 & Hnp1 & Hr1); [congruence|by destruct Hr|done|].
    pose proof (heapStep_resolved _ _ _ _ _ Sr Hnp1 Hr1). congruence.
  - destruct (IH _ _ _ _ _ _ m H (heapStep_resolved _ _ _ _ _ Sp Ha Hr) Hr p Hp Hpa)
      as (npp & np' & Hnpp & Hnp' & Hres).
    destruct (heapStep_lookup_inv _ _ _ _ _ Sp Hnpp)
      as (np & Hnp & (_ & _ & _ & Hop & _) & _).
    exists np, np'. split; [done|]. split; [done|].
    intros Hdec. apply Hres. by rewrite Hop.
Qed.
End Decisive.

(** X11 — A decisive signal resolves the parents.  When a call resolves its
    receiver, every parent other than the receiver itself ends the call
    resolved for the event whenever the receiver's truth decides it: always
    for a parent without operator or with NOT, on false for an AND parent,
    on true for an OR parent. *)
Theorem decisive_signal_resolves_parents
    (fuel : nat) (a : addr) (child : nodeRef) (evID : Z) (h h' : Heap)
    (inds : list iaddr) (nots : list Z) (n n' : IndicatorNode) :
  nodes h !! a = Some n → ¬ resolved evID n →
  setTruth fuel a child evID h = Ok (h', inds, nots) →
  nodes h' !! a = Some n' → resolved evID n' →
  ∀ p, p ∈ node_Parents n → p ≠ a →
    ∃ np np', nodes h !! p = Some np ∧ nodes h' !! p = Some np'
              ∧ (decisive (node_Operator np) (node_truth n') →
                 resolved evID np').
Proof.
  intros Hn Hnr H Hn' Hr' p Hp Hpa.
  destruct fuel as [|fuel]; [discriminate|].
  apply setTruth_inv in H as (n0 & c0 & Hn0 & Hc & Hcases).
  assert (n0 = n) as -> by congruence.
  destruct Hcases as [[_ Hr]|[Hk Hcases]].
  { injection Hr as -> -> ->. exfalso. apply Hnr. congruence. }
  pose proof (proj1 (unresolved_reset evID n) Hnr) as Hu.
  destruct Hcases as [[Hres _]|(_ & t & h2 & He & Hcases)]; [done|].
  destruct (evalOperator_step evID _ _ _ _ _ _ He (storeNode_lookup _ _ _) Hu)
    as (_ & n2 & Hn2 & _ & Htr & _).
  destruct Hcases as [[-> Hr]|(Ht & n2' & h4 & i0 & Hn2' & Hem & Hl)].
  { injection Hr as -> -> ->. exfalso. destruct Hr' as [_ Hk']. congruence. }
  assert (n2' = n2) as -> by congruence.
  destruct (resolve_step evID _ _ _ _ _ _ _ _ _ Hn Hu He Ht Hn2 Hem)
    as (S4 & Hn4 & Hr4 & Hst & _).
  assert (node_Parents n2 = node_Parents n) as Hpar.
  { destruct Hst as ((_ & _ & _ & _ & _ & -> & _) & _).
    by destruct (resetNode_step evID n) as ((_ & _ & _ & _ & _ & -> & _) & _). }
  rewrite Hpar in Hl.
  destruct (parentsLoop_frame _ _ _ _ _ _ _ _ _ _ Hl) as [S5 _].
  pose proof (heapStep_resolved evID h4 h' a _ S5 Hn4 Hr4) as Hfin.
  assert (n' = set_truth t n2) as -> by congruence.
  destruct (parentsLoop_resolves evID _ _ _ _ _ _ _ _ _ _ Hl Hn4 Hr4 p Hp Hpa)
    as (np4 & np' & Hnp4 & Hnp' & Hres).
  destruct (heapStep_lookup_inv _ _ _ _ _ S4 Hnp4)
    as (np & Hnp & (_ & _ & _ & Hop & _) & _).
  exists np, np'. split; [done|]. split; [done|].
  intros Hdec. apply Hres. by rewrite Hop.
Qed.

Lemma decisive_signal_resolves_parents_witness :
  ∃ h' inds nots np',
    Fire 9 1 Graphs.tor = Ok (h', inds, nots)
    ∧ nodes h' !! 6%nat = Some np' ∧ resolved 1 np'.
Proof.
  assert (∃ r, Fire 9 1 Graphs.tor = Ok r) as [[[h' inds] nots] Hr].
  { eexists. vm_compute. reflexivity. }
  destruct (decisive_signal_resolves_parents (fuelFor Graphs.tor) 9 ref_trueNode
              1 Graphs.tor h' inds nots (Graphs.leaf "country" "GB" [6]%nat)
              (set_truth truthTrue
                 (set_eventID 1 (Graphs.leaf "country" "GB" [6]%nat)))
              eq_refl) with (p := 6%nat)
    as (np & np' & Hnp & Hnp' & Hres).
  - intros [He _]. discriminate He.
  - exact Hr.
  - revert Hr. vm_compute. intros Hr. injection Hr as <- _ _. reflexivity.
  - split; [reflexivity|discriminate].
  - apply list_elem_of_In. simpl. auto.
  - discriminate.
  - exists h', inds, nots, np'. split; [exact Hr|]. split; [exact Hnp'|].
    apply Hres. vm_compute in Hnp. injection Hnp as <-.
    right. left. reflexivity.
Defined.

(** ** State left by other events *)

Lemma indicatorStep_sym i j : indicatorStep i j → indicatorStep j i.
Proof. intros (? & ? & ? & ? & ?). by repeat split. Qed.

(** Lines 198-202 overwrite exactly the two fields in which templates may
    differ. *)
Lemma substituted_equal i j type value :
  indicatorStep i j →
  set_ind_Value value (set_ind_Type type i)
  = set_ind_Value value (set_ind_Type type j).
Proof.
  destruct i, j. intros (? & ? & ? & ? & ?). simpl in *. by subst.
Qed.

Lemma templatesAgree_refl h g : templatesAgree h g h g.
Proof. intros p. by right. Qed.

Lemma templatesAgree_trans h g h1 g1 h2 g2 :
  templatesAgree h g h1 g1 → templatesAgree h1 g1 h2 g2 →
  templatesAgree h g h2 g2.
Proof.
  intros A1 A2 p. destruct (A2 p) as [E|[E1 E2]]; [by left|].
  rewrite E1, E2. apply A1.
Qed.

Lemma templatesAgree_same h g h' g' :
  indicators h' = indicators h → indicators g' = indicators g →
  templatesAgree h g h' g'.
Proof. intros E1 E2 p. right. by rewrite E1, E2. Qed.

Lemma templatesAgree_equal h g h' g' :
  templatesAgree h g h' g' → indicators h = indicators g →
  indicators h' = indicators g'.
Proof.
  intros A E. apply map_eq. intros p.
  destruct (A p) as [?|[-> ->]]; [done|by rewrite E].
Qed.

Section Isolation.
Variable evID : Z.

Lemma staleEquiv_sym n m : staleEquiv evID n m → staleEquiv evID m n.
Proof. unfold staleEquiv. congruence. Qed.

Lemma staleEquiv_nots n m :
  staleEquiv evID n m → node_SiblingNots n = node_SiblingNots m.
Proof.
  unfold staleEquiv. intros H.
  by rewrite <- (resetNode_SiblingNots evID n), H, resetNode_SiblingNots.
Qed.

(** A node that is resolved for the event is related to itself only. *)
Lemma staleEquiv_resolved n m :
  staleEquiv evID n m → resolved evID n → n = m.
Proof.
  unfold staleEquiv. intros H Hr.
  rewrite (resetNode_resolved evID n Hr) in H.
  destruct (decide (node_eventID m = evID)) as [Hm|Hm].
  - by rewrite H, resetNode_same_event.
  - exfalso. destruct Hr as [_ Hr]. apply Hr. rewrite H.
    apply unresolved_reset. by intros [? _].
Qed.

Lemma staleEquiv_true n m :
  staleEquiv evID n m →
  (node_eventID n ≠ evID ∨ node_truth n ≠ truthTrue)
  ↔ (node_eventID m ≠ evID ∨ node_truth m ≠ truthTrue).
Proof.
  intros Hs. split; intros H.
  - destruct (decide (node_eventID m = evID)) as [E|E]; [|by left].
    destruct (decide (node_truth m = truthTrue)) as [T|T]; [|by right].
    assert (m = n) as ->.
    { apply staleEquiv_resolved; [by apply staleEquiv_sym|].
      split; [done|]. by rewrite T. }
    done.
  - destruct (decide (node_eventID n = evID)) as [E|E]; [|by left].
    destruct (decide (node_truth n = truthTrue)) as [T|T]; [|by right].
    assert (n = m) as ->.
    { apply staleEquiv_resolved; [done|]. split; [done|]. by rewrite T. }
    done.
Qed.

Lemma heapEquiv_refl h : heapEquiv evID h h.
Proof.
  split.
  - intros b. destruct (nodes h !! b); by constructor.
  - intros p. destruct (indicators h !! p); constructor.
    apply indicatorStep_refl.
Qed.

Lemma heapEquiv_lookup h g a n :
  heapEquiv evID h g → nodes h !! a = Some n →
  ∃ m, nodes g !! a = Some m ∧ staleEquiv evID n m.
Proof.
  intros [Hn _] Ha. specialize (Hn a). rewrite Ha in Hn.
  inversion Hn; subst. eauto.
Qed.

Lemma heapEquiv_store h g a x :
  heapEquiv evID h g → heapEquiv evID (storeNode a x h) (storeNode a x g).
Proof.
  intros [Hn Hi]. split; [|exact Hi]. intros b. simpl.
  destruct (decide (a = b)) as [->|Hne].
  - rewrite !lookup_insert_eq. by constructor.
  - rewrite !lookup_insert_ne by done. apply Hn.
Qed.

Lemma heapEquiv_nodes h g h' g' :
  heapEquiv evID h g → nodes h' = nodes h → nodes g' = nodes g →
  (∀ p, option_Forall2 indicatorStep (indicators h' !! p)
          (indicators g' !! p)) →
  heapEquiv evID h' g'.
Proof.
  intros [Hn _] Hh Hg Hi. split; [|done]. intros b. rewrite Hh, Hg. apply Hn.
Qed.

Lemma heapEquiv_size h g :
  heapEquiv evID h g → size (nodes h) = size (nodes g).
Proof.
  intros [Hn _]. rewrite <- !size_dom. f_equal. apply set_eq. intros b.
  rewrite !elem_of_dom. specialize (Hn b).
  inversion Hn; split; intros [? ?]; eauto; congruence.
Qed.

Lemma childrenTrue_equiv h g cs :
  heapEquiv evID h g → childrenTrue h evID cs = childrenTrue g evID cs.
Proof.
  intros [Hn _]. induction cs as [|c cs IH]; simpl; [done|].
  specialize (Hn c). inversion Hn as [n m Hs Hh Hg|]; simpl; [|done].
  pose proof (staleEquiv_true n m Hs) as Hiff.
  repeat case_decide; first [done | exfalso; tauto].
Qed.

Lemma childTrue_equal h g c :
  heapEquiv evID h g → childTrue h evID c → nodes g !! c = nodes h !! c.
Proof.
  intros Heq (ch & Hch & He & Ht).
  destruct (heapEquiv_lookup _ _ _ _ Heq Hch) as (m & Hm & Hs).
  rewrite Hch, Hm. f_equal. symmetry. apply staleEquiv_resolved; [done|].
  split; [done|]. by rewrite Ht.
Qed.

Lemma evalOperator_equiv h g a child nr c t h2 :
  heapEquiv evID h g →
  nodes h !! a = Some nr → nodes g !! a = Some nr →
  node_eventID nr = evID →
  deref h child = Some c → deref g child = Some c →
  evalOperator h a child = Ok (t, h2) →
  ∃ x, h2 = storeNode a x h
       ∧ evalOperator g a child = Ok (t, storeNode a x g).
Proof.
  intros Heq Hh Hg Hev Hch Hcg. unfold evalOperator.
  rewrite Hh, Hg, Hch, Hcg. simpl.
  assert (∀ u, Ok (u, h) = Ok (t, h2) →
               ∃ x, h2 = storeNode a x h
                    ∧ @Ok (truth * Heap) (u, g) = Ok (t, storeNode a x g))
    as Hsame.
  { intros u Hu. injection Hu as -> <-. exists nr.
    by rewrite !storeNode_same. }
  assert (∀ u y, Ok (u, storeNode a y h) = Ok (t, h2) →
                 ∃ x, h2 = storeNode a x h
                      ∧ @Ok (truth * Heap) (u, storeNode a y g)
                        = Ok (t, storeNode a x g))
    as Hstore.
  { intros u y Hu. injection Hu as -> <-. by exists y. }
  case_decide; [|by apply Hsame].
  case_decide.
  { case_decide; [|by apply Hsame]. case_decide; [by apply Hstore|by apply Hsame]. }
  case_decide.
  { case_decide; [by apply Hsame|].
    rewrite Hev, <- (childrenTrue_equiv h g _ Heq).
    destruct (childrenTrue h evID (node_Children nr)) as [u| |] eqn:Hu;
      simpl; try done.
    case_decide as Hd; [|by apply Hsame].
    destruct Hd as [-> _].
    destruct (node_Children nr) as [|c0 cs] eqn:Hcs; simpl; [done|].
    apply childrenTrue_True, Forall_cons in Hu as [Hc0 _].
    rewrite (childTrue_equal h g c0 Heq Hc0).
    destruct (nodes h !! c0) as [first|]; simpl; [|done].
    by apply Hstore. }
  case_decide; [|by apply Hsame].
  case_decide; by apply Hsame.
Qed.

Lemma emitIndicator_equiv h g a h4 l :
  nodes h !! a = nodes g !! a →
  (∀ p, option_Forall2 indicatorStep (indicators h !! p)
          (indicators g !! p)) →
  emitIndicator h a = Ok (h4, l) →
  ∃ g4, emitIndicator g a = Ok (g4, l)
        ∧ nodes h4 = nodes h ∧ nodes g4 = nodes g
        ∧ (∀ p, option_Forall2 indicatorStep (indicators h4 !! p)
                  (indicators g4 !! p))
        ∧ templatesAgree h g h4 g4.
Proof.
  intros Hn Hi. unfold emitIndicator. rewrite <- Hn.
  destruct (nodes h !! a) as [n|]; simpl; [|done].
  assert (∀ l0 : list nat, Ok (h, l0) = Ok (h4, l) →
          ∃ g4, Ok (g, l0) = Ok (g4, l)
                ∧ nodes h4 = nodes h ∧ nodes g4 = nodes g
                ∧ (∀ p, option_Forall2 indicatorStep (indicators h4 !! p)
                          (indicators g4 !! p))
                ∧ templatesAgree h g h4 g4) as Hsame.
  { intros l0 Hx. injection Hx as <- <-. exists g.
    do 4 (split; [done|]). apply templatesAgree_refl. }
  case_decide; [|by apply Hsame].
  destruct (node_Indicator n) as [p|]; [|by apply Hsame].
  pose proof (Hi p) as Hp.
  destruct (node_Pattern n) as [pat|].
  - destruct (node_UseOriginalIndicatorValue n); [by apply Hsame|].
    inversion Hp as [i j Hij Hhi Hgj|]; simpl; [|done].
    intros Hx. injection Hx as <- <-. eexists. split; [done|]. simpl.
    split; [done|]. split; [done|].
    rewrite (substituted_equal i j _ _ Hij). split.
    + intros q. destruct (decide (p = q)) as [->|Hne].
      * rewrite !lookup_insert_eq. constructor. apply indicatorStep_refl.
      * rewrite !lookup_insert_ne by done. apply Hi.
    + intros q. simpl. destruct (decide (p = q)) as [->|Hne].
      * left. by rewrite !lookup_insert_eq.
      * right. by rewrite !lookup_insert_ne.
  - inversion Hp as [i j Hij Hhi Hgj|]; simpl; [|done]. by apply Hsame.
Qed.

Lemma parentsLoop_equiv fuel a :
  (∀ p h g h' i d c,
     heapEquiv evID h g → deref h (ref_node a) = Some c →
     deref g (ref_node a) = Some c → node_truth c ≠ truthUnknown →
     setTruth fuel p (ref_node a) evID h = Ok (h', i, d) →
     ∃ g', setTruth fuel p (ref_node a) evID g = Ok (g', i, d)
           ∧ heapEquiv evID h' g' ∧ templatesAgree h g h' g') →
  ∀ ps h g i0 d0 h' i d m,
    heapEquiv evID h g →
    nodes h !! a = Some m → nodes g !! a = Some m → resolved evID m →
    parentsLoop (λ p, setTruth fuel p (ref_node a) evID) ps h i0 d0
    = Ok (h', i, d) →
    ∃ g', parentsLoop (λ p, setTruth fuel p (ref_node a) evID) ps g i0 d0
          = Ok (g', i, d)
          ∧ heapEquiv evID h' g' ∧ templatesAgree h g h' g'.
Proof.
  intros Hcall ps. induction ps as [|p ps IH]; simpl;
    intros h g i0 d0 h' i d m Heq Hh Hg Hr H.
  - injection H as <- <- <-. exists g. split; [done|]. split; [done|].
    apply templatesAgree_refl.
  - apply bind_Ok in H as ([[hp ip] dp] & Hp & H).
    destruct (Hcall p h g hp ip dp m Heq Hh Hg (proj2 Hr) Hp)
      as (gp & Hgp & Heqp & Ap).
    rewrite Hgp. simpl.
    assert (nodes hp !! a = Some m) as Hhp.
    { apply (heapStep_resolved evID h hp a m); [|done..].
      by eapply setTruth_heapStep. }
    assert (nodes gp !! a = Some m) as Hgp'.
    { apply (heapStep_resolved evID g gp a m); [|done..].
      by eapply setTruth_heapStep. }
    destruct (IH hp gp _ _ _ _ _ m Heqp Hhp Hgp' Hr H)
      as (g' & Hg' & Heq' & A').
    exists g'. split; [done|]. split; [done|].
    by eapply templatesAgree_trans.
Qed.

Lemma setTruth_equiv fuel :
  ∀ a child h g h' i d c,
    heapEquiv evID h g → deref h child = Some c → deref g child = Some c →
    node_truth c ≠ truthUnknown →
    setTruth fuel a child evID h = Ok (h', i, d) →
    ∃ g', setTruth fuel a child evID g = Ok (g', i, d)
          ∧ heapEquiv evID h' g' ∧ templatesAgree h g h' g'.
Proof.
  induction fuel as [|fuel IH]; intros a child h g h' i d c Heq Hch Hcg Hk H;
    [discriminate|].
  apply setTruth_inv in H as (n0 & c0 & Hn & Hc0 & Hcases).
  assert (c0 = c) as -> by congruence.
  destruct Hcases as [[? _]|[_ Hcases]]; [done|].
  destruct (heapEquiv_lookup _ _ _ _ Heq Hn) as (m0 & Hm & Hs).
  pose proof Hs as Hreset. unfold staleEquiv in Hreset.
  pose proof (staleEquiv_nots _ _ Hs) as Hnots.
  cbn [setTruth]. rewrite Hm, Hcg. simpl. rewrite decide_False by done.
  rewrite <- Hreset, <- Hnots.
  pose proof (heapEquiv_store h g a (resetNode evID n0) Heq) as Heq1.
  destruct Hcases as [[Hres Hr]|(Hu & t & h2 & He & Hcases)].
  { injection Hr as -> -> ->. rewrite decide_False by done.
    eexists. split; [done|]. split; [done|]. by apply templatesAgree_same. }
  rewrite decide_True by done.
  assert (∃ c1, deref (storeNode a (resetNode evID n0) h) child = Some c1
                ∧ deref (storeNode a (resetNode evID n0) g) child = Some c1)
    as (c1 & Hc1 & Hc1').
  { destruct (decide (child = ref_node a)) as [->|Hne].
    - exists (resetNode evID n0). simpl. by rewrite !lookup_insert_eq.
    - exists c. by rewrite !deref_storeNode. }
  destruct (evalOperator_equiv _ _ _ _ (resetNode evID n0) c1 _ _ Heq1
              (storeNode_lookup _ _ _) (storeNode_lookup _ _ _)
              (resetNode_eventID evID n0) Hc1 Hc1' He)
    as (x & -> & Heg).
  rewrite Heg. simpl.
  pose proof (heapEquiv_store _ _ a x Heq1) as Heq2.
  destruct Hcases as [[-> Hr]|(Ht & n2 & h4 & i0 & Hn2 & Hem & Hl)].
  { injection Hr as -> -> ->.
    eexists. split; [done|]. split; [done|]. by apply templatesAgree_same. }
  rewrite decide_True by done.
  rewrite storeNode_lookup in Hn2. injection Hn2 as <-.
  rewrite lookup_insert_eq. simpl.
  pose proof (heapEquiv_store _ _ a (set_truth t x) Heq2) as Heq3.
  destruct (emitIndicator_equiv _ (storeNode a (set_truth t x)
              (storeNode a x (storeNode a (resetNode evID n0) g))) a _ _
              ltac:(by rewrite !storeNode_lookup) (proj2 Heq3) Hem)
    as (g4 & Hemg & Hn4 & Hng4 & Hi4 & A4).
  rewrite Hemg. simpl.
  pose proof (heapEquiv_nodes _ _ h4 g4 Heq3 Hn4 Hng4 Hi4) as Heq4.
  assert (resolved evID (set_truth t x)) as Hr4.
  { split; [|done]. simpl.
    destruct (evalOperator_step evID _ _ _ _ _ _ He (storeNode_lookup _ _ _) Hu)
      as (_ & n2 & Hn2 & _ & _ & Hev & _).
    rewrite storeNode_lookup in Hn2. injection Hn2 as <-.
    rewrite Hev. apply resetNode_eventID. }
  assert (nodes h4 !! a = Some (set_truth t x)) as Ha4
    by (by rewrite Hn4, storeNode_lookup).
  assert (nodes g4 !! a = Some (set_truth t x)) as Hga4
    by (by rewrite Hng4, storeNode_lookup).
  destruct (parentsLoop_equiv fuel a (λ p, IH p (ref_node a))
              _ h4 g4 _ _ _ _ _ (set_truth t x) Heq4 Ha4 Hga4 Hr4 Hl)
    as (g' & Hlg & Heq' & A').
  exists g'. split; [done|]. split; [done|].
  apply (templatesAgree_trans h g h4 g4); [|done].
  intros p. apply (A4 p).
Qed.

Lemma runCall_equiv c h g h' inds nots :
  heapEquiv evID h g → runCall evID c h = Ok (h', inds, nots) →
  ∃ g', runCall evID c g = Ok (g', inds, nots)
        ∧ heapEquiv evID h' g' ∧ templatesAgree h g h' g'.
Proof.
  intros Heq. destruct c; unfold runCall, Fire, ResolveNot, fuelFor;
    rewrite <- (heapEquiv_size h g Heq).
  - by apply (setTruth_equiv _ _ _ _ _ _ _ _ trueNode).
  - by apply (setTruth_equiv _ _ _ _ _ _ _ _ falseNode).
Qed.

Lemma runCalls_equiv calls :
  ∀ h g h' inds nots,
    heapEquiv evID h g → runCalls evID calls h = Ok (h', inds, nots) →
    ∃ g', runCalls evID calls g = Ok (g', inds, nots)
          ∧ heapEquiv evID h' g' ∧ templatesAgree h g h' g'.
Proof.
  induction calls as [|c calls IH]; simpl; intros h g h' inds nots Heq H.
  - injection H as <- <- <-. exists g. split; [done|]. split; [done|].
    apply templatesAgree_refl.
  - apply bind_Ok in H as ([[h1 i1] d1] & H1 & H).
    apply bind_Ok in H as ([[h2 i2] d2] & H2 & H).
    injection H as <- <- <-.
    destruct (runCall_equiv _ _ _ _ _ _ Heq H1) as (g1 & Hg1 & Heq1 & A1).
    destruct (IH _ _ _ _ _ Heq1 H2) as (g2 & Hg2 & Heq2 & A2).
    exists g2. split; [|split; [done|by eapply templatesAgree_trans]].
    rewrite Hg1. simpl. by rewrite Hg2.
Qed.
End Isolation.

(** The node that the reset leaves when the stored generation differs from
    the event. *)
Lemma resetNode_stale evID n :
  node_eventID n ≠ evID →
  resetNode evID n
  = mkNode (node_ID n) (node_Comment n) (node_Ref n) (node_Operator n)
      (node_Indicator n) (node_Parents n) (node_Children n)
      (node_SiblingNots n)
      (if decide (node_Operator n = "") then node_Pattern n else None)
      truthUnknown evID (node_UseOriginalIndicatorValue n).
Proof.
  intros He. unfold resetNode. rewrite decide_True by done.
  destruct n; simpl. by repeat case_decide.
Qed.

(** What a run for one event leaves behind is, for any other event, state
    that the reset overwrites: a run for [ev1] takes a graph in which no node
    is stamped [ev2] to a graph that a run for [ev2] cannot tell from it. *)
Lemma earlier_run_equiv ev1 ev2 calls g h inds nots :
  ev1 ≠ ev2 →
  (∀ b n, nodes g !! b = Some n → node_eventID n ≠ ev2) →
  runCalls ev1 calls g = Ok (h, inds, nots) →
  heapEquiv ev2 h g.
Proof.
  intros Hne Hfresh H.
  destruct (runCalls_inv_step _ _ _ _ _ _ H) as [[Sn Si] _].
  pose proof (runCalls_generationStep _ _ _ _ _ _ H) as G.
  split.
  - intros b. specialize (Sn b).
    inversion Sn as [n n' Hs Hg Hh|]; constructor.
    destruct (G b n (eq_sym Hg)) as (n'' & Hn'' & Hor).
    assert (n'' = n') as -> by congruence.
    destruct Hor as [->|Hev]; [done|].
    pose proof (Hfresh b n (eq_sym Hg)) as Hn2.
    destruct Hs as (Hst & Hp & _).
    unfold staleEquiv. rewrite !resetNode_stale by congruence.
    destruct Hst as (E1 & E2 & E3 & E4 & E5 & E6 & E7 & E8 & E9).
    rewrite E1, E2, E3, E4, E5, E6, E7, E8, E9.
    case_decide; [by rewrite Hp|done].
  - intros p. specialize (Si p). inversion Si; constructor.
    by apply indicatorStep_sym.
Qed.

(** X12 — Events do not interfere through the nodes.  Take two graphs
    whose nodes differ only in state that the lazy reset overwrites (the
    reset for the event maps them to the same node) and whose indicator
    templates differ only in [Type] and [Value], the two fields a
    substitution overwrites.  A run of [Fire] and [ResolveNot] calls for the
    event that returns on one returns on the other, with the same templates
    reported in the same order and the same negations, and leaves two graphs
    that again differ only in that way.  The contents of the templates are
    a different matter, since a template keeps what an earlier substitution
    wrote: after the run each template holds the same contents in both
    graphs, or the run wrote it in neither and it holds what it held before.
    So the two runs leave equal templates when they start with equal ones. *)
Theorem stale_state_is_irrelevant
    (evID : Z) (calls : list apiCall) (h g h' : Heap)
    (inds : list iaddr) (nots : list Z) :
  heapEquiv evID h g →
  runCalls evID calls h = Ok (h', inds, nots) →
  ∃ g', runCalls evID calls g = Ok (g', inds, nots)
        ∧ heapEquiv evID h' g'
        ∧ templatesAgree h g h' g'
        ∧ (indicators h = indicators g → indicators h' = indicators g').
Proof.
  intros Heq H.
  destruct (runCalls_equiv evID calls h g h' inds nots Heq H)
    as (g' & Hg & Heq' & A).
  exists g'. split; [done|]. split; [done|]. split; [done|].
  by apply templatesAgree_equal.
Qed.

Lemma stale_state_is_irrelevant_witness :
  ∃ h1 h' g' i j,
    Fire 1 1 Graphs.watch = Ok (h1, [0%nat], [])
    ∧ runCalls 2 [callResolveNot 3] h1 = Ok (h', [0%nat], [])
    ∧ runCalls 2 [callResolveNot 3] Graphs.watch = Ok (g', [0%nat], [])
    ∧ indicators h' !! 0%nat = Some i ∧ ind_Value i = "10.0.0.1"
    ∧ indicators g' !! 0%nat = Some j ∧ ind_Value j = "103.199.16.66".
Proof.
  pose (h1 := storeIndicator 0
                (set_ind_Value "10.0.0.1"
                   (set_ind_Type "ipv4" Graphs.torIndicator))
                (storeNode 0
                   (set_truth truthTrue
                      (set_Pattern
                         (Some (mkPattern "src.ipv4" "10.0.0.1" "" ""))
                         (set_eventID 1
                            (Graphs.operator "OR" (Some 0%nat) []
                               [1; 2; 3]%nat []))))
                   (storeNode 1
                      (set_truth truthTrue
                         (set_eventID 1
                            (Graphs.leaf "src.ipv4" "10.0.0.1" [0]%nat)))
                      Graphs.watch))).
  assert (runCalls 1 [callFire 1] Graphs.watch = Ok (h1, [0%nat], [])) as H1
    by (vm_compute; reflexivity).
  assert (∃ r i, runCalls 2 [callResolveNot 3] h1 = Ok (r, [0%nat], [])
                 ∧ indicators r !! 0%nat = Some i
                 ∧ ind_Value i = "10.0.0.1") as (h' & i & Hh & Hi & Hv).
  { eexists _, _. split; [vm_compute; reflexivity|].
    split; [vm_compute; reflexivity|reflexivity]. }
  assert (∃ r j, runCalls 2 [callResolveNot 3] Graphs.watch
                 = Ok (r, [0%nat], [])
                 ∧ indicators r !! 0%nat = Some j
                 ∧ ind_Value j = "103.199.16.66") as (gx & j & Hgx & Hj & Hw).
  { eexists _, _. split; [vm_compute; reflexivity|].
    split; [vm_compute; reflexivity|reflexivity]. }
  destruct (stale_state_is_irrelevant 2 [callResolveNot 3] h1 Graphs.watch
              h' [0%nat] [])
    as (g' & Hg & _).
  - apply (earlier_run_equiv 1 2 [callFire 1] Graphs.watch h1 [0%nat] []);
      [discriminate| |exact H1].
    assert (map_Forall (λ _ n, node_eventID n ≠ 2) (nodes Graphs.watch))
      as Hall.
    { apply (bool_decide_unpack _). by vm_compute. }
    exact Hall.
  - exact Hh.
  - rewrite Hg in Hgx. injection Hgx as <-.
    exists h1, h', g', i, j.
    split; [by vm_compute|]. split; [exact Hh|]. split; [exact Hg|].
    split; [exact Hi|]. split; [exact Hv|]. split; [exact Hj|exact Hw].
Defined.

(** X13 — A NOT reports its indicator as it is.  A NOT node touched for a
    new event never holds a pattern: the reset clears it and the NOT case
    adopts none.  So when a false signal resolves the node true, its
    indicator is the first one returned and its contents are not rewritten,
    whatever [UseOriginalIndicatorValue] says. *)
Theorem NOT_indicator_unmodified
    (fuel : nat) (a : addr) (child : nodeRef) (evID : Z) (h h' : Heap)
    (inds : list iaddr) (nots : list Z) (n c : IndicatorNode)
    (p : iaddr) (i : Indicator) :
  nodes h !! a = Some n → node_Operator n = "NOT" → node_eventID n ≠ evID →
  node_Indicator n = Some p → indicators h !! p = Some i →
  (∀ b nb, nodes h !! b = Some nb → node_Indicator nb = Some p → b = a) →
  deref h child = Some c → child ≠ ref_node a → node_truth c = truthFalse →
  setTruth fuel a child evID h = Ok (h', inds, nots) →
  ∃ rest n',
    inds = p :: rest ∧ indicators h' !! p = Some i
    ∧ nodes h' !! a = Some n' ∧ node_truth n' = truthTrue
    ∧ node_Pattern n' = None.
Proof.
  intros Hn Hop He Hi Hp Huniq Hc Hne Ht H.
  assert (¬ resolved evID n) as Hnr by (by intros [? _]).
  destruct (setTruth_touch evID _ _ _ _ _ _ _ _ _ H Hn Hc
              ltac:(congruence) Hnr)
    as (t & h2 & n2 & Hev & Hn2 & _ & Hev2 & Hfin & _).
  rewrite (evalOperator_NOT _ a child (resetNode evID n) c) in Hev;
    [|apply storeNode_lookup|by rewrite deref_storeNode
     |by rewrite resetNode_Operator].
  rewrite decide_False in Hev by congruence. injection Hev as <- <-.
  rewrite storeNode_lookup in Hn2. injection Hn2 as <-.
  assert (node_Pattern (resetNode evID n) = None) as Hpat.
  { rewrite resetNode_Pattern by done. rewrite decide_False; [done|].
    rewrite Hop. discriminate. }
  destruct (receiver_emission _ _ _ _ _ _ _ _ _
              (set_truth truthTrue (resetNode evID n)) _ _
              Hn Hnr Hi Hp Huniq H Hfin)
    as (rest & h3 & h4 & -> & Hn3 & Hi3 & _ & Hp3 & Hem & Hkeep).
  { split; [apply resetNode_eventID|done]. }
  { done. }
  rewrite (emitIndicator_spec _ a _ p i Hn3 eq_refl Hi3 Hp3) in Hem.
  simpl in Hem. rewrite Hpat in Hem. injection Hem as <-.
  exists rest, (set_truth truthTrue (resetNode evID n)).
  split; [done|]. split; [congruence|]. by repeat split.
Qed.

Lemma NOT_indicator_unmodified_witness :
  ∃ h' rest,
    ResolveNot 0 1
      (mkHeap (list_to_map
                 [ (0%nat, Graphs.operator "NOT" (Some 0%nat) [] [1]%nat []);
                   (1%nat, Graphs.leaf "country" "GB" [0]%nat) ])
              (list_to_map [ (0%nat, Graphs.torIndicator) ]))
    = Ok (h', 0%nat :: rest, [])
    ∧ indicators h' !! 0%nat = Some Graphs.torIndicator.
Proof.
  set (h := mkHeap (list_to_map
                 [ (0%nat, Graphs.operator "NOT" (Some 0%nat) [] [1]%nat []);
                   (1%nat, Graphs.leaf "country" "GB" [0]%nat) ])
              (list_to_map [ (0%nat, Graphs.torIndicator) ])).
  assert (∃ r, ResolveNot 0 1 h = Ok r) as [[[h' inds] nots] Hr].
  { eexists. vm_compute. reflexivity. }
  destruct (NOT_indicator_unmodified (fuelFor h) 0 ref_falseNode 1 h h' inds
              nots (Graphs.operator "NOT" (Some 0%nat) [] [1]%nat [])
              falseNode 0 Graphs.torIndicator)
    as (rest & n' & Hinds & Hi' & _).
  - reflexivity.
  - reflexivity.
  - discriminate.
  - reflexivity.
  - reflexivity.
  - assert (map_Forall (λ b nb, node_Indicator nb = Some 0%nat → b = 0%nat)
              (nodes h)) as H.
    { apply (bool_decide_unpack _). by vm_compute. }
    exact H.
  - reflexivity.
  - discriminate.
  - reflexivity.
  - exact Hr.
  - exists h', rest. split; [|exact Hi'].
    rewrite Hr. subst inds. revert Hr. vm_compute.
    intros Hr. by injection Hr as _ _ <-.
Defined.
